(** * Bech32X: a shallow embedding of [ref/python/bech32x.py]

    The reference implementation is embedded function by function.  Python
    integers are [Z] (the bit operations of [Z] are those of Python's
    unbounded two's-complement integers), Python lists of integers are
    [list Z], and a Python [str] is the list of its code points. *)

From Stdlib Require Import ZArith NArith String Ascii Bool List Lia Btauto FinFun Sorted.
Import ListNotations.
Local Open Scope Z_scope.

(** ** Python values, exceptions and sequence primitives *)

Inductive pyexn : Type := TypeError | IndexError.

(** What a call does: it returns a value, raises, or (a [while] loop that
    never ends) does not terminate. *)
Inductive outcome (A : Type) : Type :=
| Return (a : A)
| Raise (e : pyexn)
| Diverges.
Arguments Return {A} a.
Arguments Raise {A} e.
Arguments Diverges {A}.

Definition bind {A B : Type} (m : outcome A) (k : A -> outcome B) : outcome B :=
  match m with
  | Return a => k a
  | Raise e => Raise e
  | Diverges => Diverges
  end.

Notation "x <- m ;; k" := (bind m (fun x => k))
  (at level 61, m at next level, right associativity).

Fixpoint mapM {A B : Type} (f : A -> outcome B) (l : list A) : outcome (list B) :=
  match l with
  | [] => Return []
  | x :: l' => y <- f x ;; ys <- mapM f l' ;; Return (y :: ys)
  end.

(** The two dynamic types an argument named [data] takes in this file. *)
Inductive pyval : Type :=
| PNone
| PList (l : list Z).

(** [a + b] on lists; anything else is a [TypeError]. *)
Definition py_add (a b : pyval) : outcome (list Z) :=
  match a, b with
  | PList x, PList y => Return (x ++ y)
  | _, _ => Raise TypeError
  end.

(** A [str] is its sequence of code points. *)
Definition pystr : Type := list N.

Definition ord (x : N) : Z := Z.of_N x.

Definition str (s : string) : pystr := map N_of_ascii (list_ascii_of_string s).
Arguments str s%_string.

Definition len {A : Type} (l : list A) : Z := Z.of_nat (length l).

(** [range(n)] and [range(a, b)]. *)
Definition py_range (n : Z) : list Z := map Z.of_nat (seq 0 (Z.to_nat n)).
Definition py_range2 (a b : Z) : list Z := map (fun k => a + Z.of_nat k) (seq 0 (Z.to_nat (b - a))).

(** [l[i]] with Python's wrap-around of negative indices. *)
Definition py_getitem {A : Type} (l : list A) (i : Z) : outcome A :=
  let n := len l in
  let j := if i <? 0 then i + n else i in
  if (0 <=? j) && (j <? n)
  then match nth_error l (Z.to_nat j) with
       | Some x => Return x
       | None => Raise IndexError
       end
  else Raise IndexError.

(** [l[i]] where the index is known to be in range: the tables and vectors
    of the decoder.  Out of range (an [IndexError] in Python) it yields
    the default [d]. *)
Definition py_index {A : Type} (d : A) (l : list A) (i : Z) : A :=
  match py_getitem l i with
  | Return x => x
  | _ => d
  end.

Fixpoint list_update {A : Type} (l : list A) (k : nat) (v : A) : list A :=
  match l, k with
  | [], _ => []
  | _ :: l', O => v :: l'
  | x :: l', S k' => x :: list_update l' k' v
  end.

(** [l[i] = v]. *)
Definition py_setitem {A : Type} (l : list A) (i : Z) (v : A) : outcome (list A) :=
  let n := len l in
  let j := if i <? 0 then i + n else i in
  if (0 <=? j) && (j <? n)
  then Return (list_update l (Z.to_nat j) v)
  else Raise IndexError.

Definition py_set {A : Type} (l : list A) (i : Z) (v : A) : list A :=
  match py_setitem l i v with
  | Return l' => l'
  | _ => l
  end.

(** Slices [l[lo:hi]], [l[lo:]] and [l[:hi]]: a bound below zero counts from
    the end, and both bounds are clamped to the sequence. *)
Definition py_clamp (n i : Z) : Z :=
  if i <? 0 then Z.max (i + n) 0 else Z.min i n.

Definition py_slice {A : Type} (l : list A) (lo hi : Z) : list A :=
  let a := py_clamp (len l) lo in
  let b := py_clamp (len l) hi in
  firstn (Z.to_nat (b - a)) (skipn (Z.to_nat a) l).

Definition py_slice_from {A : Type} (l : list A) (lo : Z) : list A :=
  py_slice l lo (len l).

Definition py_slice_to {A : Type} (l : list A) (hi : Z) : list A :=
  py_slice l 0 hi.

(** [s.lower()] and [s.upper()].  Both decoders call them only after every
    character passed the test [33 <= ord(x) <= 126], where they are the
    ASCII case maps. *)
Definition lower_char (c : N) : N :=
  if (N.leb 65 c && N.leb c 90)%bool then (c + 32)%N else c.
Definition upper_char (c : N) : N :=
  if (N.leb 97 c && N.leb c 122)%bool then (c - 32)%N else c.
Definition lower (s : pystr) : pystr := map lower_char s.
Definition upper (s : pystr) : pystr := map upper_char s.

Fixpoint pystr_eqb (a b : pystr) : bool :=
  match a, b with
  | [], [] => true
  | x :: a', y :: b' => N.eqb x y && pystr_eqb a' b'
  | _, _ => false
  end.

(** [s.find(c)] and [s.rfind(c)] for a one-character [c]: the first and the
    last index of [c], or -1. *)
Fixpoint find_from (c : N) (s : pystr) (i : Z) : Z :=
  match s with
  | [] => -1
  | x :: s' => if N.eqb x c then i else find_from c s' (i + 1)
  end.
Definition py_find (s : pystr) (c : N) : Z := find_from c s 0.

Fixpoint rfind_from (c : N) (s : pystr) (i last : Z) : Z :=
  match s with
  | [] => last
  | x :: s' => rfind_from c s' (i + 1) (if N.eqb x c then i else last)
  end.
Definition py_rfind (s : pystr) (c : N) : Z := rfind_from c s 0 (-1).

(** [c in s] for a one-character [c]. *)
Definition py_in (c : N) (s : pystr) : bool := existsb (N.eqb c) s.

(** ** The checksum codec *)

Definition CHARSET : pystr := str "qpzry9x8gf2tvdw0s3jn54khce6mua7l".

Definition generator : list Z :=
  [ 0x48ad7da5f5dffe2565cb2f7406b4a2bcbc;
    0x55af243bb2f7943c3d4da6d046345795d;
    0xa91cc8534da778785f9247a01ceda669f;
    0x11a7b84839246b2e49b0c8d1039da6ddbb;
    0x234e589060c8d655d131058707391d2f53 ].

(** One turn of the loop of [bech32x_polymod]; [<<] binds tighter than [^]. *)
Definition polymod_step (chk value : Z) : Z :=
  let top := Z.shiftr chk 130 in
  let chk := Z.lxor (Z.shiftl (Z.lxor chk (Z.shiftl top 130)) 5) value in
  fold_left
    (fun chk i =>
       Z.lxor chk (if Z.land (Z.shiftr top i) 1 =? 0 then 0
                   else py_index 0 generator i))
    (py_range 5) chk.

Definition bech32x_polymod (values : list Z) : Z :=
  fold_left polymod_step values 1.

Definition bech32x_hrp_expand (hrp : pystr) : list Z :=
  map (fun x => Z.shiftr (ord x) 5) hrp ++ [0] ++ map (fun x => Z.land (ord x) 31) hrp.

Definition bech32x_verify_checksum (hrp : pystr) (data : list Z) : bool :=
  bech32x_polymod (bech32x_hrp_expand hrp ++ data) =? 1.

Definition bech32x_create_checksum (hrp : pystr) (data : pyval) : outcome (list Z) :=
  values <- py_add (PList (bech32x_hrp_expand hrp)) data ;;
  let polymod := Z.lxor (bech32x_polymod (values ++ repeat 0 27)) 1 in
  Return (map (fun i => Z.land (Z.shiftr polymod (5 * (26 - i))) 31) (py_range 27)).

Definition bech32x_encode (hrp : pystr) (data : pyval) : outcome pystr :=
  checksum <- bech32x_create_checksum hrp data ;;
  combined <- py_add data (PList checksum) ;;
  chars <- mapM (py_getitem CHARSET) combined ;;
  Return (hrp ++ str "1" ++ chars).

(** [(None, None)] is [None]; a success is [Some (hrp, data)]. *)
Definition bech32x_decode (bech : pystr) : option (pystr * list Z) :=
  if existsb (fun x => (ord x <? 33) || (ord x >? 126)) bech
     || (negb (pystr_eqb (lower bech) bech) && negb (pystr_eqb (upper bech) bech))
  then None
  else
    let bech := lower bech in
    let pos := py_rfind bech 49%N in
    if (pos <? 1) || (pos + 27 >? len bech) || (len bech >? 1023)
    then None
    else if negb (forallb (fun x => py_in x CHARSET) (py_slice_from bech (pos + 1)))
    then None
    else
      let hrp := py_slice_to bech pos in
      let data := map (py_find CHARSET) (py_slice_from bech (pos + 1)) in
      if negb (bech32x_verify_checksum hrp data)
      then None
      else Some (hrp, py_slice_to data (-27)).

(** [convertbits] is called with the widths 8 to 5 and 5 to 8 only.  The
    embedding reads every shift count as non-negative, as it is at both
    calls (Python raises [ValueError] on a negative one).

    The [while] loop: with [tobits >= 1] it ends within [bits] turns, the
    fuel it is given; with [tobits = 0] it never ends, which is where the
    fuel runs out. *)
Fixpoint convert_emit (fuel : nat) (acc bits tobits maxv : Z) (ret : list Z)
  : option (Z * list Z) :=
  if bits >=? tobits
  then match fuel with
       | O => None
       | S fuel' =>
           let bits := bits - tobits in
           convert_emit fuel' acc bits tobits maxv (ret ++ [Z.land (Z.shiftr acc bits) maxv])
       end
  else Some (bits, ret).

Fixpoint convert_loop (data : list Z) (frombits tobits maxv max_acc acc bits : Z)
  (ret : list Z) : outcome (option (Z * Z * list Z)) :=
  match data with
  | [] => Return (Some (acc, bits, ret))
  | value :: data' =>
      if (value <? 0) || negb (Z.shiftr value frombits =? 0)
      then Return None
      else
        let acc := Z.land (Z.lor (Z.shiftl acc frombits) value) max_acc in
        let bits := bits + frombits in
        match convert_emit (Z.to_nat bits) acc bits tobits maxv ret with
        | None => Diverges
        | Some (bits, ret) =>
            convert_loop data' frombits tobits maxv max_acc acc bits ret
        end
  end.

Definition convertbits (data : list Z) (frombits tobits : Z) (pad : bool)
  : outcome pyval :=
  let maxv := Z.shiftl 1 tobits - 1 in
  let max_acc := Z.shiftl 1 (frombits + tobits - 1) - 1 in
  r <- convert_loop data frombits tobits maxv max_acc 0 0 [] ;;
  match r with
  | None => Return PNone
  | Some (acc, bits, ret) =>
      if pad
      then if negb (bits =? 0)
           then Return (PList (ret ++ [Z.land (Z.shiftl acc (tobits - bits)) maxv]))
           else Return (PList ret)
      else if (bits >=? frombits)
              || negb (Z.land (Z.shiftl acc (tobits - bits)) maxv =? 0)
           then Return PNone
           else Return (PList ret)
  end.

(** What [decode] returns: the pair [(None, None)], or what [convertbits]
    returned. *)
Inductive decode_result : Type :=
| DecodeNonePair
| DecodeValue (v : pyval).

Definition decode (hrp addr : pystr) : outcome decode_result :=
  match bech32x_decode addr with
  | None => Return DecodeNonePair
  | Some (hrpgot, data) =>
      if negb (pystr_eqb hrpgot hrp)
      then Return DecodeNonePair
      else decoded <- convertbits data 5 8 false ;; Return (DecodeValue decoded)
  end.

Definition encode (hrp : pystr) (data : list Z) : outcome (option pystr) :=
  d <- convertbits data 8 5 true ;;
  ret <- bech32x_encode hrp d ;;
  r <- decode hrp ret ;;
  match r with
  | DecodeNonePair => Return None
  | DecodeValue _ => Return (Some ret)
  end.

(** ** Error correction: GF(1024) by its tables *)

Definition EXP : list Z :=
  [
   1; 69; 229; 290; 58; 183; 166; 89; 838; 737; 199; 802; 203; 59; 242; 67;
   379; 892; 598; 97; 891; 909; 730; 53; 865; 432; 839; 676; 34; 512; 241; 140;
   84; 26; 573; 413; 657; 835; 944; 950; 552; 118; 538; 716; 273; 709; 857; 397;
   555; 185; 821; 426; 378; 825; 691; 323; 833; 826; 636; 108; 39; 849; 896; 390;
   233; 571; 3; 207; 303; 870; 107; 508; 490; 206; 362; 899; 329; 454; 349; 104;
   307; 197; 936; 257; 639; 163; 264; 55; 1003; 122; 259; 757; 361; 844; 102; 672;
   310; 404; 217; 11; 706; 642; 822; 357; 85; 95; 728; 191; 683; 1012; 790; 1007;
   366; 663; 733; 494; 474; 766; 939; 462; 848; 965; 355; 459; 513; 180; 105; 374;
   32; 650; 315; 712; 5; 337; 881; 266; 189; 545; 574; 338; 958; 37; 987; 586;
   962; 184; 880; 335; 88; 771; 516; 485; 792; 124; 157; 171; 773; 922; 955; 372;
   170; 832; 895; 665; 334; 29; 998; 806; 479; 943; 218; 196; 1005; 484; 861; 153;
   447; 145; 946; 828; 994; 562; 587; 903; 93; 594; 373; 239; 933; 605; 675; 505;
   187; 959; 96; 830; 872; 1016; 15; 982; 278; 798; 482; 707; 711; 979; 71; 111;
   232; 638; 230; 493; 277; 977; 205; 421; 684; 559; 429; 161; 386; 509; 431; 43;
   72; 953; 510; 352; 260; 814; 978; 2; 138; 458; 580; 81; 331; 332; 151; 556;
   354; 398; 740; 406; 83; 449; 134; 723; 637; 41; 194; 627; 954; 305; 79; 610;
   837; 558; 488; 68; 160; 455; 280; 141; 17; 255; 799; 423; 550; 997; 1001; 240;
   201; 177; 312; 519; 298; 567; 794; 246; 343; 751; 852; 721; 759; 483; 646; 546;
   753; 125; 216; 78; 551; 928; 780; 466; 243; 6; 414; 606; 620; 214; 989; 980;
   412; 724; 934; 658; 908; 671; 208; 579; 394; 1008; 514; 123; 326; 528; 75; 886;
   209; 518; 367; 722; 568; 204; 480; 585; 781; 407; 22; 292; 420; 745; 714; 143;
   155; 309; 347; 502; 877; 681; 894; 732; 427; 319; 988; 913; 377; 1014; 924; 549;
   810; 710; 918; 162; 333; 210; 713; 64; 436; 595; 304; 10; 647; 615; 532; 351;
   226; 249; 641; 1017; 74; 819; 52; 804; 341; 613; 670; 149; 678; 168; 970; 693;
   221; 287; 342; 682; 945; 1011; 717; 340; 544; 635; 439; 668; 31; 876; 748; 923;
   1022; 401; 392; 890; 968; 575; 279; 859; 263; 993; 765; 868; 225; 54; 942; 159;
   33; 719; 478; 1002; 63; 486; 983; 339; 1019; 192; 761; 624; 885; 30; 809; 521;
   697; 964; 294; 302; 803; 142; 222; 464; 121; 460; 986; 527; 807; 410; 842; 504;
   254; 858; 322; 772; 991; 862; 86; 144; 1015; 985; 704; 520; 764; 801; 4; 276;
   916; 40; 135; 662; 664; 267; 248; 708; 796; 360; 777; 131; 898; 268; 291; 127;
   82; 388; 99; 1009; 583; 158; 100; 554; 252; 976; 136; 320; 910; 533; 282; 7;
   475; 699; 846; 236; 874; 882; 453; 402; 327; 597; 174; 596; 235; 689; 457; 651;
   382; 557; 295; 363; 966; 428; 228; 359; 223; 405; 156; 238; 992; 696; 897; 451;
   12; 793; 57; 120; 393; 831; 813; 797; 301; 1004; 417; 952; 443; 389; 38; 788;
   869; 164; 211; 652; 165; 150; 617; 391; 172; 734; 289; 245; 408; 960; 50; 698;
   779; 9; 584; 840; 370; 308; 286; 275; 591; 659; 969; 634; 498; 633; 317; 854;
   603; 829; 935; 727; 873; 957; 234; 756; 300; 937; 324; 666; 385; 306; 128; 845;
   35; 581; 20; 430; 110; 173; 667; 452; 471; 418; 887; 148; 739; 77; 744; 655;
   106; 441; 271; 492; 336; 820; 495; 415; 539; 649; 500; 999; 867; 314; 653; 224;
   115; 843; 445; 27; 632; 376; 947; 889; 775; 784; 625; 816; 251; 523; 563; 526;
   866; 383; 616; 450; 73; 1020; 283; 66; 318; 921; 884; 91; 972; 811; 643; 883;
   384; 375; 101; 623; 25; 754; 178; 503; 808; 588; 604; 742; 284; 409; 901; 215;
   920; 817; 190; 750; 785; 564; 981; 473; 561; 644; 680; 827; 569; 137; 261; 875;
   823; 288; 176; 381; 738; 8; 525; 941; 80; 270; 425; 437; 534; 469; 296; 701;
   720; 690; 262; 932; 536; 582; 219; 129; 776; 198; 871; 46; 281; 200; 244; 477;
   805; 272; 640; 956; 175; 529; 14; 915; 499; 572; 472; 628; 609; 906; 769; 654;
   47; 348; 45; 470; 487; 914; 438; 729; 250; 590; 726; 812; 856; 456; 718; 411;
   783; 285; 476; 864; 501; 930; 902; 24; 695; 87; 213; 786; 763; 762; 703; 602;
   888; 834; 1013; 851; 778; 76; 685; 618; 328; 387; 440; 330; 265; 114; 782; 344;
   313; 578; 463; 789; 800; 65; 497; 694; 18; 48; 560; 705; 589; 537; 515; 62;
   419; 818; 113; 961; 119; 607; 553; 51; 767; 1006; 299; 626; 1023; 468; 365; 600;
   1010; 648; 433; 770; 577; 256; 570; 70; 42; 13; 860; 220; 346; 435; 904; 907;
   836; 619; 269; 358; 154; 368; 446; 212; 855; 542; 984; 645; 749; 990; 795; 179;
   434; 973; 878; 614; 593; 442; 448; 195; 566; 863; 19; 117; 725; 995; 631; 686;
   677; 103; 741; 467; 182; 227; 188; 612; 731; 112; 900; 146; 893; 531; 132; 601;
   951; 621; 147; 824; 758; 422; 611; 768; 715; 202; 126; 23; 353; 321; 971; 752;
   56; 61; 364; 541; 791; 938; 395; 949; 743; 345; 380; 679; 237; 815; 919; 231;
   424; 496; 755; 247; 274; 522; 630; 747; 576; 325; 735; 356; 16; 186; 1018; 133;
   540; 850; 847; 169; 911; 592; 511; 293; 481; 524; 1000; 181; 44; 403; 258; 688;
   396; 622; 92; 535; 400; 461; 927; 746; 517; 416; 1021; 350; 167; 28; 931; 963;
   253; 917; 109; 98; 948; 674; 444; 94; 669; 90; 905; 974; 929; 841; 311; 465;
   60; 297; 760; 565; 912; 316; 787; 702; 543; 925; 608; 975; 996; 940; 21; 491;
   139; 399; 673; 371; 369; 507; 49; 629; 548; 879; 547; 692; 152; 506; 116; 656;
   774; 853; 660; 530; 193; 700; 661; 599; 36; 926; 687; 736; 130; 967; 489
  ].

Definition LOG : list Z :=
  [
   (-1); 0; 231; 66; 462; 132; 297; 495; 693; 561; 363; 99; 528; 825; 726; 198;
   924; 264; 792; 858; 594; 990; 330; 891; 759; 660; 33; 627; 957; 165; 429; 396;
   128; 416; 28; 592; 1016; 141; 542; 60; 465; 249; 824; 223; 940; 738; 715; 736;
   793; 998; 558; 807; 374; 23; 413; 87; 896; 530; 4; 13; 976; 897; 799; 420;
   359; 789; 647; 15; 259; 1; 823; 206; 224; 644; 372; 318; 773; 605; 291; 254;
   696; 235; 480; 244; 32; 104; 454; 761; 148; 7; 969; 651; 946; 184; 967; 105;
   194; 19; 963; 482; 486; 658; 94; 865; 79; 126; 608; 70; 59; 962; 596; 207;
   873; 802; 781; 624; 1006; 859; 41; 804; 531; 440; 89; 315; 153; 289; 890; 479;
   590; 711; 1020; 475; 878; 927; 246; 466; 490; 685; 232; 992; 31; 263; 437; 335;
   455; 177; 875; 882; 603; 379; 549; 238; 1004; 175; 836; 336; 522; 154; 485; 415;
   260; 219; 355; 85; 545; 548; 6; 956; 381; 931; 160; 155; 552; 597; 506; 724;
   690; 273; 662; 847; 125; 939; 868; 5; 145; 49; 925; 192; 870; 136; 674; 107;
   425; 1012; 250; 855; 171; 81; 713; 10; 717; 272; 889; 12; 325; 214; 73; 67;
   310; 320; 357; 546; 839; 762; 301; 671; 290; 98; 170; 710; 827; 384; 438; 520;
   623; 412; 368; 869; 518; 2; 210; 911; 208; 64; 582; 508; 499; 908; 523; 187;
   271; 30; 14; 296; 718; 555; 279; 915; 470; 369; 744; 636; 488; 960; 448; 265;
   821; 83; 942; 90; 228; 686; 706; 408; 86; 780; 135; 469; 477; 834; 697; 610;
   721; 44; 916; 567; 463; 212; 200; 406; 262; 716; 494; 646; 668; 753; 566; 385;
   689; 554; 3; 478; 331; 935; 434; 514; 702; 977; 276; 810; 584; 536; 435; 68;
   362; 253; 589; 80; 565; 337; 96; 974; 274; 784; 621; 130; 981; 574; 648; 345;
   491; 893; 450; 55; 586; 921; 316; 504; 776; 76; 779; 236; 237; 356; 164; 147;
   612; 133; 139; 423; 391; 376; 386; 280; 783; 905; 828; 338; 737; 78; 955; 367;
   227; 892; 240; 122; 923; 103; 835; 519; 473; 92; 74; 515; 898; 814; 112; 322;
   837; 996; 564; 995; 159; 186; 127; 657; 629; 348; 52; 16; 906; 691; 512; 641;
   656; 588; 220; 777; 481; 541; 63; 551; 402; 532; 312; 902; 944; 47; 241; 993;
   948; 401; 503; 941; 97; 521; 243; 329; 556; 669; 445; 751; 304; 35; 298; 615;
   953; 538; 601; 800; 332; 215; 885; 267; 912; 698; 51; 344; 517; 218; 595; 222;
   25; 818; 848; 829; 360; 699; 742; 394; 778; 609; 853; 540; 966; 626; 838; 176;
   854; 245; 643; 527; 599; 502; 77; 261; 749; 510; 233; 123; 441; 949; 119; 786;
   439; 975; 295; 867; 813; 701; 739; 600; 730; 679; 116; 496; 754; 719; 418; 168;
   326; 936; 202; 285; 173; 151; 421; 740; 258; 1022; 72; 991; 611; 211; 115; 614;
   913; 790; 572; 728; 618; 756; 339; 663; 447; 191; 1005; 997; 71; 221; 226; 934;
   29; 124; 314; 798; 150; 952; 321; 275; 459; 431; 917; 637; 937; 694; 639; 443;
   317; 725; 1011; 877; 366; 493; 700; 947; 708; 797; 42; 616; 928; 899; 841; 984;
   392; 137; 287; 1002; 1000; 351; 268; 292; 40; 806; 487; 48; 239; 513; 257; 217;
   794; 680; 181; 638; 677; 979; 856; 277; 324; 684; 822; 65; 729; 34; 138; 405;
   920; 820; 785; 311; 234; 593; 709; 484; 562; 327; 143; 182; 665; 796; 745; 568;
   933; 852; 185; 361; 507; 505; 18; 1015; 815; 879; 767; 576; 666; 189; 299; 805;
   986; 732; 255; 886; 871; 377; 851; 365; 642; 550; 775; 833; 300; 881; 945; 659;
   427; 634; 811; 251; 731; 999; 918; 862; 628; 573; 571; 393; 58; 248; 209; 84;
   722; 370; 101; 654; 681; 843; 286; 364; 817; 617; 129; 511; 547; 622; 735; 607;
   1007; 36; 307; 569; 1010; 1014; 467; 113; 468; 163; 587; 598; 395; 968; 378; 309;
   95; 994; 965; 190; 27; 864; 380; 907; 682; 341; 387; 108; 216; 774; 863; 1018;
   943; 509; 705; 54; 1003; 383; 791; 760; 525; 432; 559; 497; 1013; 703; 983; 766;
   458; 795; 100; 203; 471; 45; 353; 204; 131; 358; 334; 888; 43; 390; 750; 417;
   704; 283; 323; 247; 305; 860; 746; 579; 106; 743; 22; 872; 343; 114; 553; 922;
   1019; 9; 692; 604; 242; 866; 667; 904; 606; 333; 951; 919; 398; 844; 675; 281;
   895; 288; 661; 914; 583; 91; 884; 284; 978; 426; 765; 764; 460; 410; 117; 808;
   887; 734; 819; 149; 451; 156; 1008; 632; 712; 474; 772; 560; 294; 328; 782; 752;
   633; 676; 763; 982; 543; 787; 110; 900; 152; 529; 278; 846; 472; 535; 201; 266;
   788; 461; 11; 436; 375; 720; 167; 444; 664; 430; 352; 653; 747; 534; 229; 909;
   635; 673; 801; 373; 613; 50; 102; 688; 883; 53; 57; 683; 179; 577; 195; 533;
   161; 56; 769; 37; 832; 256; 8; 26; 563; 973; 446; 625; 93; 591; 498; 930;
   120; 61; 929; 771; 282; 1009; 575; 840; 748; 46; 449; 407; 826; 174; 453; 857;
   755; 24; 640; 620; 411; 544; 69; 714; 196; 580; 500; 687; 397; 340; 850; 1001;
   146; 134; 501; 655; 650; 428; 319; 602; 768; 631; 403; 20; 17; 876; 342; 162;
   62; 526; 476; 75; 874; 670; 758; 183; 830; 970; 733; 831; 308; 21; 492; 932;
   980; 347; 741; 727; 464; 961; 354; 910; 672; 649; 157; 399; 350; 985; 1017; 950;
   293; 972; 757; 958; 707; 188; 306; 578; 82; 585; 901; 118; 989; 695; 414; 169;
   38; 388; 178; 630; 964; 903; 39; 880; 539; 225; 252; 158; 723; 581; 140; 193;
   557; 803; 144; 959; 433; 121; 516; 1021; 404; 570; 382; 894; 652; 849; 971; 987;
   489; 213; 230; 205; 303; 678; 199; 422; 842; 457; 442; 142; 346; 302; 845; 452;
   524; 409; 180; 861; 988; 269; 166; 619; 938; 270; 419; 88; 537; 172; 809; 111;
   313; 483; 816; 389; 109; 770; 349; 456; 197; 371; 926; 424; 645; 954; 400; 812
  ].

Definition shift (a e : Z) : Z :=
  if a =? 0 then 0
  else py_index 0 EXP ((py_index 0 LOG a + e) mod 1023).

Definition polymul (a b : list Z) : list Z :=
  let ret := repeat 0 (Z.to_nat (len a + len b - 1)) in
  fold_left
    (fun ret x =>
       if negb (py_index 0 a x =? 0)
       then
         let l := py_index 0 LOG (py_index 0 a x) in
         fold_left
           (fun ret y =>
              py_set ret (x + y) (Z.lxor (py_index 0 ret (x + y)) (shift (py_index 0 b y) l)))
           (py_range (len b)) ret
       else ret)
    (py_range (len a)) ret.

Definition polyeval (p : list Z) (l : Z) : Z :=
  fold_left (fun ret v => Z.lxor (shift ret l) v) (rev p) 0.

Definition matrix : Type := list (list Z).

(** [m[r][c]]. *)
Definition entry (m : matrix) (r c : Z) : Z := py_index 0 (py_index [] m r) c.

(** The body of the loop over [rc] in [bech32x_solver]: [None] is the
    [return None] of a column without pivot. *)
Definition eliminate_column (err : Z) (m : matrix) (rc : Z) : option matrix :=
  match filter (fun r => negb (entry m r rc =? 0)) (py_range2 rc err) with
  | [] => None
  | nz :: _ =>
      let m := py_set (py_set m nz (py_index [] m rc)) rc (py_index [] m nz) in
      let l := py_index 0 LOG (entry m rc rc) in
      let m := py_set m rc (map (fun x => shift x (- l)) (py_index [] m rc)) in
      Some
        (fold_left
           (fun m r =>
              if negb (r =? rc) && negb (entry m r rc =? 0)
              then py_set m r
                     (map (fun c => Z.lxor (entry m r c)
                                      (shift (entry m rc c) (py_index 0 LOG (entry m r rc))))
                        (py_range (err + 1)))
              else m)
           (py_range err) m)
  end.

(** The elimination of [bech32x_solver]: the matrix once every column has
    its pivot. *)
Definition solve_matrix (s : list Z) (err : Z) : option matrix :=
  let m := map (fun j => map (fun i => py_index 0 s (i + j)) (py_range (err + 1)))
             (py_range err) in
  fold_left
    (fun mo rc => match mo with
                  | None => None
                  | Some m => eliminate_column err m rc
                  end)
    (py_range err) (Some m).

(** The locator, its derivative and the error evaluator read off the solved
    matrix. *)
Definition locator (m : matrix) (err : Z) : list Z :=
  [1] ++ map (fun i => entry m (- (i + 1)) err) (py_range err).

Definition locator_derivative (m : matrix) (err : Z) : list Z :=
  map (fun i => if negb (Z.land i 1 =? 0) then 0 else entry m (- (1 + i)) err)
    (py_range err).

Definition evaluator (s lam : list Z) : list Z :=
  py_slice (polymul s lam) 0 13.

(** [None] is Python's [None]; otherwise the list of pairs (position,
    magnitude). *)
Definition bech32x_solver (s : list Z) (siz err : Z) : option (list (Z * Z)) :=
  match solve_matrix s err with
  | None => None
  | Some m =>
      let lam := locator m err in
      let lamd := locator_derivative m err in
      let om := evaluator s lam in
      Some
        (fold_left
           (fun ret p =>
              if polyeval lam (- p) =? 0
              then
                let e := shift (polyeval om (- p))
                           (- (19 * p + py_index 0 LOG (polyeval lamd (- p)))) in
                ret ++ [(p, e)]
              else ret)
           (py_range siz) [])
  end.

(** What [base32x_correct] returns: the tuple of four [None]s, the tuple
    (hrp, data, re-encoded string, positions), or Python's [None] when the
    loop over the error counts ends without a [return]. *)
Inductive correct_result : Type :=
| CorrectNoneTuple
| Corrected (hrp : pystr) (data : list Z) (bech : pystr) (positions : list Z)
| CorrectNone.

(** The syndrome vector of a residue, the two loops over [v] and [i]. *)
Definition syndrome (residue : list Z) : list Z :=
  fold_left
    (fun syn v =>
       fold_left
         (fun syn i => py_set syn i (Z.lxor (shift (py_index 0 syn i) (20 + i)) v))
         (py_range 14) syn)
    residue (repeat 0 14).

Definition residue_digits (values : list Z) : list Z :=
  map (fun i => Z.land (Z.shiftr (Z.lxor (bech32x_polymod values) 1) (5 * (26 - i))) 31)
    (py_range 27).

(** [for (p, e) in ret: values[-(1+p)] ^= e]. *)
Fixpoint apply_corrections (values : list Z) (ret : list (Z * Z)) : outcome (list Z) :=
  match ret with
  | [] => Return values
  | (p, e) :: ret' =>
      x <- py_getitem values (- (1 + p)) ;;
      values' <- py_setitem values (- (1 + p)) (Z.lxor x e) ;;
      apply_corrections values' ret'
  end.

(** The loop [for i in range(7, -1, -1)], over the error counts still to
    try. *)
Fixpoint correct_search (hrpgot : pystr) (hrp_ext values syn : list Z) (siz : Z)
  (counts : list Z) : outcome correct_result :=
  match counts with
  | [] => Return CorrectNone
  | i :: counts' =>
      match bech32x_solver syn siz i with
      | None => correct_search hrpgot hrp_ext values syn siz counts'
      | Some ret =>
          if len ret =? i
          then
            values' <- apply_corrections values ret ;;
            chars <- mapM (py_getitem CHARSET) (py_slice_from values' (len hrp_ext)) ;;
            Return (Corrected hrpgot
                      (py_slice values' (len hrp_ext) (-27))
                      chars
                      (map (fun pe => siz - 1 - fst pe) ret))
          else Return CorrectNoneTuple
      end
  end.

Definition base32x_correct (expected_hrp bech : pystr) : outcome correct_result :=
  if existsb (fun x => (ord x <? 33) || (ord x >? 126)) bech
     || (negb (pystr_eqb (lower bech) bech) && negb (pystr_eqb (upper bech) bech))
  then Return CorrectNoneTuple
  else
    let bech := lower bech in
    let pos := py_rfind bech 49%N in
    if (pos <? 1) || (pos + 27 >? len bech) || (len bech >? 1023)
    then Return CorrectNoneTuple
    else if negb (forallb (fun x => py_in x CHARSET) (py_slice_from bech (pos + 1)))
    then Return CorrectNoneTuple
    else
      let hrpgot := py_slice_to bech pos in
      if negb (pystr_eqb expected_hrp (str "*")) && negb (pystr_eqb hrpgot expected_hrp)
      then Return CorrectNoneTuple
      else
        let hrp_ext := bech32x_hrp_expand hrpgot in
        let values := hrp_ext ++ map (py_find CHARSET) (py_slice_from bech (pos + 1)) in
        let syn := syndrome (residue_digits values) in
        correct_search hrpgot hrp_ext values syn (len (py_slice_from bech (pos + 1)))
          [7; 6; 5; 4; 3; 2; 1; 0].

(** ** Definitions for the statements *)

(** The generator words selected by the bits of [top]. *)
Definition select (top i : Z) : Z :=
  if Z.land (Z.shiftr top i) 1 =? 0 then 0 else py_index 0 generator i.

(** What the five generator words add for the five bits of [top]. *)
Definition feedback (top : Z) : Z :=
  fold_left (fun acc i => Z.lxor acc (select top i)) (py_range 5) 0.

(** The step on a zero symbol: the linear part of the register. *)
Definition advance (chk : Z) : Z := polymod_step chk 0.

(** The number whose base-32 digits, most significant first, follow [acc]. *)
Definition from_digits (ds : list Z) (acc : Z) : Z :=
  fold_left (fun a d => 32 * a + d) ds acc.

(** [n] digits of [c] by shift and mask, as the comprehensions of
    [bech32x_create_checksum] and [base32x_correct] take them. *)
Definition mask_digits (n : nat) (c : Z) : list Z :=
  map (fun i => Z.land (Z.shiftr c (5 * (Z.of_nat n - 1 - i))) 31) (py_range (Z.of_nat n)).

(** The character of a symbol. *)
Definition symbol_char (d : Z) : N := py_index 0%N CHARSET d.

(** The checks on range, case, separator, length and alphabet that open
    [bech32x_decode] and [base32x_correct]: the prefix and the characters of
    the codeword, or [None] where the decoders return their tuple of
    [None]s. *)
Definition structure (bech : pystr) : option (pystr * pystr) :=
  if existsb (fun x => (ord x <? 33) || (ord x >? 126)) bech
     || (negb (pystr_eqb (lower bech) bech) && negb (pystr_eqb (upper bech) bech))
  then None
  else
    let bech := lower bech in
    let pos := py_rfind bech 49%N in
    if (pos <? 1) || (pos + 27 >? len bech) || (len bech >? 1023)
    then None
    else if negb (forallb (fun x => py_in x CHARSET) (py_slice_from bech (pos + 1)))
    then None
    else Some (py_slice_to bech pos, py_slice_from bech (pos + 1)).

(** The 27 base-32 digits of a number, most significant first, in the
    words of the specification of [create_checksum]. *)
Definition base32_digits (n : nat) (c : Z) : list Z :=
  map (fun i => (c / 32 ^ (Z.of_nat n - 1 - i)) mod 32) (py_range (Z.of_nat n)).

(** The roots of a locator among the positions [0 .. siz - 1]. *)
Definition roots (lam : list Z) (siz : Z) : list Z :=
  filter (fun p => polyeval lam (- p) =? 0) (py_range siz).

(** Multiplication in GF(1024) as [polymul] does it: the logarithm of one
    factor shifts the other. *)
Definition gf_mul (a b : Z) : Z :=
  if a =? 0 then 0 else shift b (py_index 0 LOG a).

(** The coefficient of degree [k] of the product: the sum (XOR) over the
    degrees [x] of [a] of [a[x] * b[k - x]]. *)
Definition product_coefficient (a b : list Z) (k : Z) : Z :=
  fold_left
    (fun acc x =>
       Z.lxor acc (if (x <=? k) && (k <? x + len b)
                   then gf_mul (py_index 0 a x) (py_index 0 b (k - x))
                   else 0))
    (py_range (len a)) 0.

(** A character outside the printable range, as both decoders test it. *)
Definition out_of_range (x : N) : bool := (ord x <? 33) || (ord x >? 126).

(** The number that the groups [ds] of [w] bits spell, most significant
    group first. *)
Definition base_value (w : Z) (ds : list Z) : Z :=
  fold_left (fun a d => a * 2 ^ w + d) ds 0.

(** Multiplication by the generator, read off the images of the ten bits. *)
Definition times_generator (a : Z) : Z :=
  fold_left (fun acc i => Z.lxor acc (if Z.testbit a i then shift (Z.shiftl 1 i) 1 else 0))
    (py_range 10) 0.

(** The sum of two polynomials, coefficient by coefficient. *)
Fixpoint padd (p q : list Z) : list Z :=
  match p, q with
  | [], _ => q
  | _, [] => p
  | x :: p', y :: q' => Z.lxor x y :: padd p' q'
  end.

(** A string literal is read as ASCII. *)
Example str_tx : str "tx1" = [116; 120; 49]%N.
Proof. reflexivity. Qed.

(** * Properties *)

(** Equations between nested [Z.lxor]s, bit by bit. *)
Ltac lxor_ring :=
  apply Z.bits_inj'; intros ? _; rewrite ?Z.lxor_spec; btauto.

(** ** The shift register is linear over GF(2) *)

Section PolymodLinear.

Lemma fold_lxor_start (f : Z -> Z) (l : list Z) (c : Z) :
  fold_left (fun acc i => Z.lxor acc (f i)) l c
  = Z.lxor c (fold_left (fun acc i => Z.lxor acc (f i)) l 0).
Proof.
  revert c. induction l as [|i l IH]; intros c; simpl.
  - now rewrite Z.lxor_0_r.
  - rewrite IH. rewrite (IH (f i)). now rewrite Z.lxor_assoc.
Qed.

Lemma polymod_step_unfold (chk value : Z) :
  polymod_step chk value
  = Z.lxor (Z.lxor (Z.shiftl (Z.lxor chk (Z.shiftl (Z.shiftr chk 130) 130)) 5) value)
      (feedback (Z.shiftr chk 130)).
Proof.
  unfold polymod_step, feedback, select.
  now rewrite fold_lxor_start.
Qed.

Lemma polymod_step_value (chk value : Z) :
  polymod_step chk value = Z.lxor (advance chk) value.
Proof.
  unfold advance. rewrite !polymod_step_unfold.
  rewrite Z.lxor_0_r. lxor_ring.
Qed.

Lemma land_1_testbit (x : Z) : (Z.land x 1 =? 0) = negb (Z.testbit x 0).
Proof.
  change 1 with (Z.ones 1). rewrite Z.land_ones by lia.
  rewrite Z.bit0_eqb. change (2 ^ 1) with 2.
  pose proof (Z.mod_pos_bound x 2 ltac:(lia)).
  destruct (x mod 2 =? 0) eqn:E0, (x mod 2 =? 1) eqn:E1; simpl; try reflexivity; lia.
Qed.

Lemma select_testbit (top i : Z) :
  0 <= i ->
  select top i = if Z.testbit top i then py_index 0 generator i else 0.
Proof.
  intros Hi. unfold select. rewrite land_1_testbit.
  rewrite Z.shiftr_spec by lia. simpl.
  now destruct (Z.testbit top i).
Qed.

Lemma select_lxor (a b i : Z) :
  0 <= i -> select (Z.lxor a b) i = Z.lxor (select a i) (select b i).
Proof.
  intros Hi. rewrite !select_testbit by assumption.
  rewrite Z.lxor_spec.
  destruct (Z.testbit a i), (Z.testbit b i); simpl;
    rewrite ?Z.lxor_nilpotent, ?Z.lxor_0_r, ?Z.lxor_0_l; reflexivity.
Qed.

Lemma lxor_swap4 (a b c d : Z) :
  Z.lxor (Z.lxor a b) (Z.lxor c d) = Z.lxor (Z.lxor a c) (Z.lxor b d).
Proof.
  lxor_ring.
Qed.

Lemma feedback_lxor (a b : Z) :
  feedback (Z.lxor a b) = Z.lxor (feedback a) (feedback b).
Proof.
  unfold feedback.
  assert (H : Forall (fun i => 0 <= i) (py_range 5)).
  { repeat constructor; discriminate. }
  revert H. generalize (py_range 5) as l.
  assert (G : forall l x y, Forall (fun i => 0 <= i) l ->
            fold_left (fun acc i => Z.lxor acc (select (Z.lxor a b) i)) l (Z.lxor x y)
            = Z.lxor (fold_left (fun acc i => Z.lxor acc (select a i)) l x)
                     (fold_left (fun acc i => Z.lxor acc (select b i)) l y)).
  { induction l as [|i l IH]; intros x y Hl; simpl; [reflexivity|].
    inversion Hl; subst.
    rewrite select_lxor by assumption.
    rewrite lxor_swap4. now apply IH. }
  intros l Hl. rewrite <- G by assumption. now rewrite Z.lxor_0_l.
Qed.

Lemma advance_lxor (a b : Z) :
  advance (Z.lxor a b) = Z.lxor (advance a) (advance b).
Proof.
  unfold advance. rewrite !polymod_step_unfold, !Z.lxor_0_r.
  rewrite Z.shiftr_lxor, feedback_lxor.
  rewrite !Z.shiftl_lxor.
  lxor_ring.
Qed.


Lemma low_bits_lxor (chk : Z) :
  Z.lxor chk (Z.shiftl (Z.shiftr chk 130) 130) = chk mod 2 ^ 130.
Proof.
  apply Z.bits_inj'. intros n Hn. rewrite Z.lxor_spec.
  destruct (Z.lt_ge_cases n 130) as [Hlt|Hge].
  - rewrite Z.shiftl_spec_low by assumption.
    rewrite Z.mod_pow2_bits_low by lia. apply xorb_false_r.
  - rewrite Z.shiftl_spec_high by lia.
    rewrite Z.shiftr_spec by lia.
    rewrite Z.mod_pow2_bits_high by lia.
    replace (n - 130 + 130) with n by lia. apply xorb_nilpotent.
Qed.

Lemma below_pow2_bits (n a : Z) :
  0 <= n -> 0 <= a ->
  (forall m, n <= m -> Z.testbit a m = false) -> a < 2 ^ n.
Proof.
  intros Hn Ha Hbits.
  assert (E : a mod 2 ^ n = a).
  { apply Z.bits_inj'. intros m Hm.
    destruct (Z.lt_ge_cases m n).
    - now rewrite Z.mod_pow2_bits_low by lia.
    - rewrite Z.mod_pow2_bits_high by lia. symmetry. now apply Hbits. }
  rewrite <- E. apply Z.mod_pos_bound. now apply Z.pow_pos_nonneg.
Qed.

Lemma bits_above_pow2 (n a m : Z) :
  0 <= a < 2 ^ n -> n <= m -> Z.testbit a m = false.
Proof.
  intros Ha Hm.
  destruct (Z.lt_ge_cases n 0) as [Hneg|Hn].
  - rewrite Z.pow_neg_r in Ha by assumption. lia.
  - rewrite <- (Z.mod_small a (2 ^ n)) by assumption.
    apply Z.mod_pow2_bits_high. lia.
Qed.

Lemma lxor_below (n a b : Z) :
  0 <= n -> 0 <= a < 2 ^ n -> 0 <= b < 2 ^ n -> 0 <= Z.lxor a b < 2 ^ n.
Proof.
  intros Hn Ha Hb. split.
  - apply Z.lxor_nonneg. lia.
  - apply below_pow2_bits; [assumption | apply Z.lxor_nonneg; lia |].
    intros m Hm. rewrite Z.lxor_spec.
    now rewrite (bits_above_pow2 n a m), (bits_above_pow2 n b m).
Qed.

Lemma generator_below (i : Z) : 0 <= py_index 0 generator i < 2 ^ 135.
Proof.
  unfold py_index, py_getitem.
  destruct ((0 <=? _) && _) eqn:E; [|vm_compute; split; [discriminate|reflexivity]].
  change (len generator) with 5 in *.
  assert (H : 0 <= (if i <? 0 then i + 5 else i) < 5) by lia.
  set (j := if i <? 0 then i + 5 else i) in *.
  assert (C : j = 0 \/ j = 1 \/ j = 2 \/ j = 3 \/ j = 4) by lia.
  destruct C as [->|[->|[->|[->| ->]]]]; vm_compute; split; (discriminate || reflexivity).
Qed.

Lemma select_below (top i : Z) : 0 <= select top i < 2 ^ 135.
Proof.
  unfold select. destruct (_ =? 0); [lia | apply generator_below].
Qed.

Lemma feedback_below (top : Z) : 0 <= feedback top < 2 ^ 135.
Proof.
  unfold feedback. generalize (py_range 5) as l.
  assert (G : forall l c, 0 <= c < 2 ^ 135 ->
            0 <= fold_left (fun acc i => Z.lxor acc (select top i)) l c < 2 ^ 135).
  { induction l as [|i l IH]; intros c Hc; simpl; [assumption|].
    apply IH. apply lxor_below; [lia | assumption | apply select_below]. }
  intros l. apply G. lia.
Qed.

Lemma polymod_step_below (chk value : Z) :
  0 <= value < 2 ^ 135 -> 0 <= polymod_step chk value < 2 ^ 135.
Proof.
  intros Hv. rewrite polymod_step_unfold, low_bits_lxor.
  pose proof (Z.mod_pos_bound chk (2 ^ 130) ltac:(lia)) as Hm.
  rewrite Z.shiftl_mul_pow2 by lia.
  apply lxor_below; [lia| |apply feedback_below].
  apply lxor_below; [lia| |assumption].
  change (2 ^ 135) with (2 ^ 130 * 2 ^ 5). nia.
Qed.

Lemma advance_below (chk : Z) : 0 <= advance chk < 2 ^ 135.
Proof. unfold advance. apply polymod_step_below. lia. Qed.

Lemma fold_polymod_step_below (values : list Z) (chk : Z) :
  Forall (fun v => 0 <= v < 2 ^ 135) values ->
  0 <= chk < 2 ^ 135 ->
  0 <= fold_left polymod_step values chk < 2 ^ 135.
Proof.
  revert chk. induction values as [|v values IH]; intros chk Hall Hc; simpl.
  - assumption.
  - inversion Hall; subst. apply IH; [assumption|]. now apply polymod_step_below.
Qed.

Lemma bech32x_polymod_below (values : list Z) :
  Forall (fun v => 0 <= v < 2 ^ 135) values ->
  0 <= bech32x_polymod values < 2 ^ 135.
Proof.
  intros H. apply fold_polymod_step_below; [assumption | lia].
Qed.

Lemma advance_small (d : Z) : 0 <= d < 2 ^ 130 -> advance d = 32 * d.
Proof.
  intros Hd. unfold advance. rewrite polymod_step_unfold, low_bits_lxor.
  rewrite Z.shiftr_div_pow2 by lia.
  rewrite Z.div_small by assumption.
  change (feedback 0) with 0.
  rewrite !Z.lxor_0_r, Z.mod_small by assumption.
  rewrite Z.shiftl_mul_pow2 by lia. change (2 ^ 5) with 32. lia.
Qed.

Lemma In_py_range (n i : Z) : In i (py_range n) <-> 0 <= i < n.
Proof.
  unfold py_range. rewrite in_map_iff. split.
  - intros [k [<- Hk]]. apply in_seq in Hk. lia.
  - intros H. exists (Z.to_nat i). split; [lia|]. apply in_seq. lia.
Qed.

Lemma feedback_low_injective (top : Z) :
  0 <= top < 32 -> Z.land (feedback top) 31 = 0 -> top = 0.
Proof.
  intros Ht H.
  assert (C : forallb (fun t => (t =? 0) || negb (Z.land (feedback t) 31 =? 0))
                (py_range 32) = true) by (vm_compute; reflexivity).
  rewrite forallb_forall in C.
  specialize (C top (proj2 (In_py_range 32 top) Ht)).
  rewrite H in C. simpl in C. rewrite orb_false_r in C. lia.
Qed.

Lemma land_31_shiftl_lxor (x g : Z) :
  Z.land (Z.lxor (Z.shiftl x 5) g) 31 = Z.land g 31.
Proof.
  apply Z.bits_inj'. intros n Hn. rewrite !Z.land_spec, Z.lxor_spec.
  destruct (Z.lt_ge_cases n 5).
  - now rewrite Z.shiftl_spec_low by assumption.
  - change 31 with (Z.ones 5). rewrite Z.ones_spec_high by lia.
    now rewrite !andb_false_r.
Qed.

(** The register never loses a nonzero state: [advance] is injective. *)
Lemma advance_zero (a : Z) : 0 <= a < 2 ^ 135 -> advance a = 0 -> a = 0.
Proof.
  intros Ha H. unfold advance in H. rewrite polymod_step_unfold, Z.lxor_0_r in H.
  assert (Htop : 0 <= Z.shiftr a 130 < 32).
  { rewrite Z.shiftr_div_pow2 by lia. split.
    - apply Z.div_pos; lia.
    - apply Z.div_lt_upper_bound; [lia|]. change (2 ^ 130 * 32) with (2 ^ 135). lia. }
  assert (T : Z.shiftr a 130 = 0).
  { apply feedback_low_injective; [assumption|].
    rewrite <- (land_31_shiftl_lxor (Z.lxor a (Z.shiftl (Z.shiftr a 130) 130))).
    rewrite H. reflexivity. }
  rewrite T in H. change (feedback 0) with 0 in H.
  rewrite Z.shiftl_0_l, !Z.lxor_0_r in H.
  rewrite Z.shiftl_mul_pow2 in H by lia. lia.
Qed.

Lemma iter_advance_below (n : nat) (d : Z) :
  0 <= d < 2 ^ 135 -> 0 <= Nat.iter n advance d < 2 ^ 135.
Proof.
  intros Hd. destruct n; simpl; [assumption | apply advance_below].
Qed.

Lemma iter_advance_nonzero (n : nat) (d : Z) :
  0 <= d < 2 ^ 135 -> d <> 0 -> Nat.iter n advance d <> 0.
Proof.
  intros Hd Hnz. induction n as [|n IH]; simpl; [assumption|].
  intros H. apply IH. apply advance_zero; [|assumption].
  now apply iter_advance_below.
Qed.

(** A difference [d] in the state travels through the remaining symbols
    independently of them. *)
Lemma fold_polymod_step_lxor (values : list Z) (chk d : Z) :
  fold_left polymod_step values (Z.lxor chk d)
  = Z.lxor (fold_left polymod_step values chk) (Nat.iter (length values) advance d).
Proof.
  revert chk d. induction values as [|v values IH]; intros chk d; simpl.
  - reflexivity.
  - rewrite (polymod_step_value (Z.lxor chk d)), advance_lxor.
    replace (Z.lxor (Z.lxor (advance chk) (advance d)) v)
      with (Z.lxor (polymod_step chk v) (advance d))
      by (rewrite (polymod_step_value chk); lxor_ring).
    rewrite IH. f_equal.
    clear. induction (length values) as [|n IHn]; simpl; [reflexivity|].
    now rewrite IHn.
Qed.

End PolymodLinear.

(** ** Base-32 digits *)

Section Digits.

Lemma py_range_succ (n : nat) :
  py_range (Z.of_nat (S n)) = py_range (Z.of_nat n) ++ [Z.of_nat n].
Proof.
  unfold py_range. rewrite !Nat2Z.id, seq_S, map_app. reflexivity.
Qed.

Lemma py_range_length (n : Z) : length (py_range n) = Z.to_nat n.
Proof. unfold py_range. now rewrite length_map, length_seq. Qed.

Lemma mask_digits_succ (n : nat) (c : Z) :
  mask_digits (S n) c = mask_digits n (Z.shiftr c 5) ++ [Z.land c 31].
Proof.
  unfold mask_digits. rewrite py_range_succ, map_app. cbn [map]. f_equal.
  - apply map_ext_in. intros i Hi. apply In_py_range in Hi.
    rewrite Z.shiftr_shiftr by lia. do 2 f_equal. lia.
  - do 2 f_equal. replace (5 * (Z.of_nat (S n) - 1 - Z.of_nat n)) with 0 by lia.
    apply Z.shiftr_0_r.
Qed.

Lemma from_digits_snoc (ds : list Z) (d acc : Z) :
  from_digits (ds ++ [d]) acc = 32 * from_digits ds acc + d.
Proof. unfold from_digits. now rewrite fold_left_app. Qed.

Lemma from_mask_digits (n : nat) (c : Z) :
  from_digits (mask_digits n c) 0 = c mod 32 ^ Z.of_nat n.
Proof.
  revert c. induction n as [|n IH]; intros c.
  - simpl. now rewrite Z.mod_1_r.
  - rewrite mask_digits_succ, from_digits_snoc, IH.
    change 31 with (Z.ones 5). rewrite Z.land_ones, Z.shiftr_div_pow2 by lia.
    change (2 ^ 5) with 32.
    rewrite Nat2Z.inj_succ, Z.pow_succ_r by lia.
    rewrite Z.rem_mul_r by (try apply Z.pow_pos_nonneg; lia). lia.
Qed.

Lemma mask_digits_length (n : nat) (c : Z) : length (mask_digits n c) = n.
Proof. unfold mask_digits. now rewrite length_map, py_range_length, Nat2Z.id. Qed.

Lemma mask_digits_symbols (n : nat) (c : Z) :
  Forall (fun d => 0 <= d < 32) (mask_digits n c).
Proof.
  unfold mask_digits. apply Forall_forall. intros d Hd.
  apply in_map_iff in Hd. destruct Hd as [i [<- _]].
  change 31 with (Z.ones 5). rewrite Z.land_ones by lia.
  apply Z.mod_pos_bound. reflexivity.
Qed.

Lemma lxor_low_digit (a d : Z) : 0 <= d < 32 -> Z.lxor (32 * a) d = 32 * a + d.
Proof.
  intros Hd. symmetry. apply Z.add_nocarry_lxor.
  apply Z.bits_inj'. intros n Hn. rewrite Z.land_spec, Z.bits_0.
  destruct (Z.lt_ge_cases n 5).
  - replace (32 * a) with (Z.shiftl a 5) by (rewrite Z.shiftl_mul_pow2; lia).
    now rewrite Z.shiftl_spec_low.
  - rewrite (bits_above_pow2 5 d n) by (try assumption; change (2 ^ 5) with 32; lia).
    apply andb_false_r.
Qed.

Lemma iter_advance_shift (n : nat) (x : Z) :
  Nat.iter n advance (advance x) = advance (Nat.iter n advance x).
Proof. induction n as [|n IH]; simpl; [reflexivity | now rewrite IH]. Qed.

(** Feeding digits to the register adds the number they spell to the state
    the same count of zero symbols would give, as long as that number fits
    below the feedback taps. *)
Lemma fold_polymod_step_digits (ds : list Z) (x acc : Z) :
  Forall (fun d => 0 <= d < 32) ds ->
  0 <= acc ->
  (acc + 1) * 32 ^ len ds <= 2 ^ 135 ->
  fold_left polymod_step ds (Z.lxor x acc)
  = Z.lxor (Nat.iter (length ds) advance x) (from_digits ds acc).
Proof.
  revert x acc. induction ds as [|d ds IH]; intros x acc Hds Hacc Hfit.
  - reflexivity.
  - inversion Hds as [|? ? Hd Hds']; subst. cbn [fold_left length Nat.iter].
    unfold len in Hfit. cbn [length] in Hfit.
    rewrite Nat2Z.inj_succ, Z.pow_succ_r in Hfit by lia.
    assert (Hp : 0 < 32 ^ Z.of_nat (length ds)) by (apply Z.pow_pos_nonneg; lia).
    assert (Hsmall : 0 <= acc < 2 ^ 130).
    { split; [assumption|]. change (2 ^ 135) with (32 * 2 ^ 130) in Hfit. nia. }
    rewrite polymod_step_value, advance_lxor, (advance_small acc) by assumption.
    replace (Z.lxor (Z.lxor (advance x) (32 * acc)) d)
      with (Z.lxor (advance x) (32 * acc + d))
      by (rewrite <- lxor_low_digit by assumption; lxor_ring).
    rewrite IH; [| assumption | lia | unfold len; nia].
    now rewrite iter_advance_shift.
Qed.

Lemma fold_polymod_step_zeros (n : nat) (x : Z) :
  fold_left polymod_step (repeat 0 n) x = Nat.iter n advance x.
Proof.
  revert x. induction n as [|n IH]; intros x; simpl; [reflexivity|].
  rewrite IH. fold (advance x). apply iter_advance_shift.
Qed.

(** The checksum digits make the register end at 1. *)
Lemma polymod_with_checksum (values : list Z) :
  Forall (fun v => 0 <= v < 2 ^ 135) values ->
  bech32x_polymod
    (values ++ mask_digits 27 (Z.lxor (bech32x_polymod (values ++ repeat 0 27)) 1)) = 1.
Proof.
  intros Hv. unfold bech32x_polymod at 1. rewrite fold_left_app.
  fold (bech32x_polymod values). set (s := bech32x_polymod values).
  set (c := Z.lxor (bech32x_polymod (values ++ repeat 0 27)) 1).
  assert (Hz : bech32x_polymod (values ++ repeat 0 27) = Nat.iter 27 advance s).
  { unfold bech32x_polymod. rewrite fold_left_app. apply fold_polymod_step_zeros. }
  assert (Hc : 0 <= c < 2 ^ 135).
  { unfold c. rewrite Hz. apply lxor_below; [lia | | lia].
    apply iter_advance_below. apply bech32x_polymod_below. assumption. }
  rewrite <- (Z.lxor_0_r s).
  rewrite fold_polymod_step_digits.
  - rewrite mask_digits_length, from_mask_digits.
    rewrite Z.mod_small by (change (32 ^ Z.of_nat 27) with (2 ^ 135); assumption).
    unfold c. rewrite Hz. lxor_ring.
  - apply mask_digits_symbols.
  - lia.
  - unfold len. rewrite mask_digits_length. vm_compute. discriminate.
Qed.

End Digits.

(** ** Sequences, slices and searches *)

Section Sequences.

Context {A : Type}.

Lemma len_app (a b : list A) : len (a ++ b) = len a + len b.
Proof. unfold len. rewrite length_app. lia. Qed.

Lemma len_nonneg (l : list A) : 0 <= len l.
Proof. unfold len. lia. Qed.

Lemma len_cons (x : A) (l : list A) : len (x :: l) = len l + 1.
Proof. unfold len. cbn [length]. lia. Qed.

Lemma py_slice_to_firstn (l : list A) (k : Z) :
  0 <= k -> py_slice_to l k = firstn (Z.to_nat k) l.
Proof.
  intros Hk. unfold py_slice_to, py_slice, py_clamp.
  pose proof (len_nonneg l) as Hl.
  replace (0 <? 0) with false by reflexivity.
  replace (k <? 0) with false by lia.
  rewrite (Z.min_l 0) by assumption. rewrite Z.sub_0_r. cbn [Z.to_nat skipn].
  destruct (Z.le_gt_cases k (len l)).
  - now rewrite Z.min_l.
  - rewrite Z.min_r by lia. unfold len in *.
    rewrite Nat2Z.id, firstn_all. symmetry. apply firstn_all2. lia.
Qed.

Lemma py_slice_from_skipn (l : list A) (k : Z) :
  0 <= k -> py_slice_from l k = skipn (Z.to_nat k) l.
Proof.
  intros Hk. unfold py_slice_from, py_slice, py_clamp.
  pose proof (len_nonneg l) as Hl.
  replace (k <? 0) with false by lia.
  replace (len l <? 0) with false by lia.
  rewrite (Z.min_l (len l)) by lia.
  destruct (Z.le_gt_cases k (len l)).
  - rewrite Z.min_l by assumption. apply firstn_all2.
    rewrite length_skipn. unfold len in *. lia.
  - rewrite Z.min_r by lia. unfold len in *.
    rewrite Nat2Z.id, !skipn_all2 by lia. apply firstn_nil.
Qed.

Lemma py_slice_to_neg (l : list A) (k : Z) :
  0 < k -> py_slice_to l (- k) = firstn (length l - Z.to_nat k) l.
Proof.
  intros Hk. unfold py_slice_to, py_slice, py_clamp.
  pose proof (len_nonneg l) as Hl.
  replace (0 <? 0) with false by reflexivity.
  replace (- k <? 0) with true by lia.
  rewrite (Z.min_l 0) by assumption. cbn [Z.to_nat skipn].
  f_equal. unfold len. lia.
Qed.

Lemma py_slice_app_neg (a b : list A) (k : Z) :
  0 < k -> py_slice (a ++ b) (len a) (- k) = py_slice_to b (- k).
Proof.
  intros Hk. rewrite py_slice_to_neg by assumption.
  unfold py_slice, py_clamp. rewrite len_app.
  pose proof (len_nonneg a) as Ha. pose proof (len_nonneg b) as Hb.
  replace (len a <? 0) with false by lia.
  replace (- k <? 0) with true by lia.
  rewrite Z.min_l by lia. unfold len.
  rewrite Nat2Z.id, skipn_app, skipn_all, Nat.sub_diag. cbn [skipn app].
  f_equal. lia.
Qed.

Lemma firstn_skipn_middle (l : list A) (k : nat) (x : A) :
  nth_error l k = Some x -> l = firstn k l ++ x :: skipn (S k) l.
Proof.
  revert k. induction l as [|y l IH]; intros [|k] H; try discriminate.
  - cbn in H. injection H as ->. reflexivity.
  - cbn in H. cbn [firstn skipn app]. f_equal. now apply IH.
Qed.

Lemma py_getitem_nth (l : list A) (i : Z) (x : A) :
  0 <= i -> nth_error l (Z.to_nat i) = Some x -> py_getitem l i = Return x.
Proof.
  intros Hi H. unfold py_getitem.
  replace (i <? 0) with false by lia.
  assert (Z.to_nat i < length l)%nat by (apply nth_error_Some; congruence).
  replace ((0 <=? i) && (i <? len l)) with true by (unfold len; lia).
  now rewrite H.
Qed.

End Sequences.

Lemma mapM_Return {A B : Type} (f : A -> outcome B) (g : A -> B) (l : list A) :
  (forall x, In x l -> f x = Return (g x)) -> mapM f l = Return (map g l).
Proof.
  induction l as [|x l IH]; intros H; [reflexivity|]. cbn [mapM map].
  rewrite (H x (or_introl eq_refl)). cbn [bind].
  rewrite IH by (intros y Hy; apply H; now right). reflexivity.
Qed.

Lemma pystr_eqb_eq (a b : pystr) : pystr_eqb a b = true <-> a = b.
Proof.
  revert b. induction a as [|x a IH]; intros [|y b]; cbn; split; intros H;
    try reflexivity; try discriminate.
  - apply andb_true_iff in H. destruct H as [Hx Hab].
    apply N.eqb_eq in Hx. apply IH in Hab. congruence.
  - injection H as -> ->. rewrite N.eqb_refl. cbn. now apply IH.
Qed.

Lemma pystr_eqb_refl (a : pystr) : pystr_eqb a a = true.
Proof. now apply pystr_eqb_eq. Qed.

Lemma rfind_from_app (c : N) (a b : pystr) (i last : Z) :
  rfind_from c (a ++ b) i last = rfind_from c b (i + len a) (rfind_from c a i last).
Proof.
  revert i last. induction a as [|x a IH]; intros i last; cbn [app rfind_from].
  - unfold len. cbn. now rewrite Z.add_0_r.
  - rewrite IH, len_cons. f_equal. lia.
Qed.

Lemma rfind_from_absent (c : N) (s : pystr) (i last : Z) :
  py_in c s = false -> rfind_from c s i last = last.
Proof.
  revert i last. induction s as [|x s IH]; intros i last H; [reflexivity|].
  cbn in H. apply orb_false_iff in H. destruct H as [Hx Hs].
  cbn [rfind_from]. rewrite N.eqb_sym, Hx. now apply IH.
Qed.



Lemma py_rfind_app (c : N) (a b : pystr) :
  py_rfind (a ++ b) c = rfind_from c b (len a) (py_rfind a c).
Proof. unfold py_rfind. now rewrite rfind_from_app. Qed.

Lemma py_rfind_separator (c : N) (a b : pystr) :
  py_in c b = false -> py_rfind (a ++ c :: b) c = len a.
Proof.
  intros H. rewrite py_rfind_app. cbn [rfind_from]. rewrite N.eqb_refl.
  now apply rfind_from_absent.
Qed.

(** ** The alphabet *)

Lemma CHARSET_symbols :
  forallb
    (fun d =>
       let c := symbol_char d in
       (py_find CHARSET c =? d) && py_in c CHARSET && negb (N.eqb c 49)
       && N.eqb (lower_char c) c && (33 <=? ord c) && (ord c <=? 126)
       && match py_getitem CHARSET d with
          | Return c' => N.eqb c' c
          | _ => false
          end)
    (py_range 32) = true.
Proof. vm_compute. reflexivity. Qed.

Lemma symbol_char_spec (d : Z) :
  0 <= d < 32 ->
  let c := symbol_char d in
  py_getitem CHARSET d = Return c /\ py_find CHARSET c = d /\ py_in c CHARSET = true
  /\ c <> 49%N /\ lower_char c = c /\ 33 <= ord c <= 126.
Proof.
  intros Hd c. pose proof CHARSET_symbols as H.
  rewrite forallb_forall in H. specialize (H d (proj2 (In_py_range 32 d) Hd)).
  cbv zeta in H. fold c in H.
  repeat (apply andb_true_iff in H; destruct H as [H ?]).
  destruct (py_getitem CHARSET d) as [c'| |]; try discriminate.
  repeat split; try lia.
  - f_equal. now apply N.eqb_eq.
  - assumption.
  - intros E. rewrite E in *. discriminate.
  - now apply N.eqb_eq.
Qed.

Lemma find_from_spec (c : N) (s : pystr) (i : Z) :
  py_in c s = true ->
  i <= find_from c s i < i + len s
  /\ nth_error s (Z.to_nat (find_from c s i - i)) = Some c.
Proof.
  revert i. induction s as [|x s IH]; intros i H; [discriminate|].
  cbn in H. cbn [find_from]. rewrite len_cons. pose proof (len_nonneg s).
  rewrite N.eqb_sym in H. destruct (N.eqb x c) eqn:Hx.
  - apply N.eqb_eq in Hx. subst x. rewrite Z.sub_diag. split; [lia | reflexivity].
  - cbn in H. destruct (IH (i + 1) H) as [Hr Hn]. split; [lia|].
    replace (Z.to_nat (find_from c s (i + 1) - i))
      with (S (Z.to_nat (find_from c s (i + 1) - (i + 1)))) by lia.
    exact Hn.
Qed.

(** [CHARSET[CHARSET.find(x)]] is [x] for a character of the alphabet. *)
Lemma CHARSET_find (x : N) :
  py_in x CHARSET = true ->
  0 <= py_find CHARSET x < 32 /\ py_getitem CHARSET (py_find CHARSET x) = Return x.
Proof.
  intros H. destruct (find_from_spec x CHARSET 0 H) as [Hr Hn].
  fold (py_find CHARSET x) in *. change (len CHARSET) with 32 in Hr.
  split; [lia|]. apply py_getitem_nth; [lia|].
  now rewrite Z.sub_0_r in Hn.
Qed.

Lemma CHARSET_char (x : N) :
  py_in x CHARSET = true ->
  x <> 49%N /\ lower_char x = x /\ 33 <= ord x <= 126
  /\ x = symbol_char (py_find CHARSET x).
Proof.
  intros H. destruct (CHARSET_find x H) as [Hr Hg].
  destruct (symbol_char_spec _ Hr) as [Hg' [_ [_ [H1 [H2 H3]]]]].
  assert (E : x = symbol_char (py_find CHARSET x)) by congruence.
  rewrite <- E in *. auto.
Qed.


(** ** The structural checks shared by both decoders *)

Lemma bech32x_decode_structure (bech : pystr) :
  bech32x_decode bech
  = match structure bech with
    | None => None
    | Some (hrp, chars) =>
        let data := map (py_find CHARSET) chars in
        if bech32x_verify_checksum hrp data
        then Some (hrp, py_slice_to data (-27))
        else None
    end.
Proof.
  unfold bech32x_decode, structure.
  destruct (existsb _ bech || _); [reflexivity|]. cbv zeta.
  destruct ((_ <? 1) || _ || _); [reflexivity|].
  destruct (forallb _ _); [|reflexivity]. cbn [negb].
  destruct (bech32x_verify_checksum _ _); reflexivity.
Qed.

Lemma base32x_correct_structure (expected_hrp bech : pystr) :
  base32x_correct expected_hrp bech
  = match structure bech with
    | None => Return CorrectNoneTuple
    | Some (hrpgot, chars) =>
        if negb (pystr_eqb expected_hrp (str "*")) && negb (pystr_eqb hrpgot expected_hrp)
        then Return CorrectNoneTuple
        else
          let hrp_ext := bech32x_hrp_expand hrpgot in
          let values := hrp_ext ++ map (py_find CHARSET) chars in
          correct_search hrpgot hrp_ext values (syndrome (residue_digits values))
            (len chars) [7; 6; 5; 4; 3; 2; 1; 0]
    end.
Proof.
  unfold base32x_correct, structure.
  destruct (existsb _ bech || _); [reflexivity|]. cbv zeta.
  destruct ((_ <? 1) || _ || _); [reflexivity|].
  destruct (forallb _ _); reflexivity.
Qed.

Lemma existsb_none {A : Type} (f : A -> bool) (l : list A) :
  Forall (fun x => f x = false) l -> existsb f l = false.
Proof.
  induction 1 as [|x l Hx _ IH]; [reflexivity|]. cbn. now rewrite Hx, IH.
Qed.

Lemma forallb_all {A : Type} (f : A -> bool) (l : list A) :
  Forall (fun x => f x = true) l -> forallb f l = true.
Proof.
  induction 1 as [|x l Hx _ IH]; [reflexivity|]. cbn. now rewrite Hx, IH.
Qed.

Lemma Forall_symbol_chars (P : N -> Prop) (ds : list Z) :
  (forall d, 0 <= d < 32 -> P (symbol_char d)) ->
  Forall (fun d => 0 <= d < 32) ds -> Forall P (map symbol_char ds).
Proof.
  intros HP H. induction H as [|d ds Hd _ IH]; cbn [map]; constructor; auto.
Qed.

Lemma py_in_symbol_chars (ds : list Z) :
  Forall (fun d => 0 <= d < 32) ds -> py_in 49%N (map symbol_char ds) = false.
Proof.
  intros H. apply existsb_none. apply Forall_symbol_chars; [|assumption].
  intros d Hd. destruct (symbol_char_spec d Hd) as [_ [_ [_ [Hne _]]]].
  apply N.eqb_neq. congruence.
Qed.

Lemma find_symbol_chars (ds : list Z) :
  Forall (fun d => 0 <= d < 32) ds -> map (py_find CHARSET) (map symbol_char ds) = ds.
Proof.
  induction 1 as [|d ds Hd _ IH]; [reflexivity|]. cbn [map].
  destruct (symbol_char_spec d Hd) as [_ [Hf _]]. now rewrite Hf, IH.
Qed.

Lemma lower_symbol_chars (ds : list Z) :
  Forall (fun d => 0 <= d < 32) ds -> lower (map symbol_char ds) = map symbol_char ds.
Proof.
  induction 1 as [|d ds Hd _ IH]; [reflexivity|]. unfold lower in *. cbn [map].
  destruct (symbol_char_spec d Hd) as [_ [_ [_ [_ [Hl _]]]]]. now rewrite Hl, IH.
Qed.

(** A lower-case prefix, the separator and the characters of symbols pass
    the structural checks and come apart where they were joined. *)
Lemma structure_joined (hrp : pystr) (ds : list Z) :
  hrp <> [] ->
  Forall (fun x => 33 <= ord x <= 126) hrp ->
  lower hrp = hrp ->
  Forall (fun d => 0 <= d < 32) ds ->
  27 <= len ds ->
  len hrp + 1 + len ds <= 1023 ->
  structure (hrp ++ str "1" ++ map symbol_char ds) = Some (hrp, map symbol_char ds).
Proof.
  intros Hne Hrange Hlow Hds Hmin Hmax.
  change (str "1") with [49%N]. cbn [app].
  set (chars := map symbol_char ds).
  assert (Hlen : len chars = len ds) by (unfold len, chars; now rewrite length_map).
  assert (Hpos : 1 <= len hrp).
  { destruct hrp; [congruence|]. rewrite len_cons. pose proof (len_nonneg hrp). lia. }
  assert (Hl : lower (hrp ++ 49%N :: chars) = hrp ++ 49%N :: chars).
  { unfold lower. rewrite map_app. cbn [map]. fold (lower hrp) (lower chars).
    rewrite Hlow. unfold chars. now rewrite lower_symbol_chars. }
  unfold structure. rewrite Hl, pystr_eqb_refl. cbn [negb andb].
  rewrite orb_false_r.
  rewrite existsb_none.
  2:{ apply Forall_app. split.
      - eapply Forall_impl; [|exact Hrange]. cbv beta. intros x Hx. lia.
      - constructor; [reflexivity|].
        apply Forall_symbol_chars; [|assumption]. intros d Hd.
        destruct (symbol_char_spec d Hd) as [_ [_ [_ [_ [_ Hr]]]]]. lia. }
  cbv zeta.
  rewrite py_rfind_separator by (now apply py_in_symbol_chars).
  rewrite len_app, len_cons, Hlen.
  replace ((len hrp <? 1) || (len hrp + 27 >? len hrp + (len ds + 1))
           || (len hrp + (len ds + 1) >? 1023)) with false by lia.
  pose proof (len_nonneg hrp).
  rewrite py_slice_from_skipn, py_slice_to_firstn by lia.
  replace (Z.to_nat (len hrp + 1)) with (length (hrp ++ [49%N]))
    by (rewrite length_app; unfold len; cbn [length]; lia).
  replace (hrp ++ 49%N :: chars) with ((hrp ++ [49%N]) ++ chars)
    by (now rewrite <- app_assoc).
  rewrite skipn_app, skipn_all, Nat.sub_diag. cbn [skipn app].
  rewrite <- app_assoc. unfold len at 1. rewrite Nat2Z.id.
  rewrite firstn_app, firstn_all, Nat.sub_diag. cbn [firstn]. rewrite app_nil_r.
  rewrite forallb_all; [reflexivity|].
  apply Forall_symbol_chars; [|assumption]. intros d Hd.
  now destruct (symbol_char_spec d Hd) as [_ [_ [Hin _]]].
Qed.

Lemma hrp_expand_below (hrp : pystr) :
  Forall (fun x => ord x <= 126) hrp ->
  Forall (fun v => 0 <= v < 2 ^ 135) (bech32x_hrp_expand hrp).
Proof.
  intros H. unfold bech32x_hrp_expand. apply Forall_app. split; [|constructor; [lia|]].
  - apply Forall_map. eapply Forall_impl; [|exact H]. cbv beta. intros x Hx.
    rewrite Z.shiftr_div_pow2 by lia. unfold ord in *. split.
    + apply Z.div_pos; lia.
    + apply Z.div_lt_upper_bound; lia.
  - apply Forall_map. apply Forall_forall. intros x _.
    change 31 with (Z.ones 5). rewrite Z.land_ones by lia.
    pose proof (Z.mod_pos_bound (ord x) (2 ^ 5) ltac:(lia)). 
    change (2 ^ 5) with 32 in *. lia.
Qed.

Lemma symbols_below (ds : list Z) :
  Forall (fun d => 0 <= d < 32) ds -> Forall (fun v => 0 <= v < 2 ^ 135) ds.
Proof. apply Forall_impl. intros d Hd. lia. Qed.

Lemma create_checksum_list (hrp : pystr) (data : list Z) :
  bech32x_create_checksum hrp (PList data)
  = Return (mask_digits 27
              (Z.lxor (bech32x_polymod (bech32x_hrp_expand hrp ++ data ++ repeat 0 27)) 1)).
Proof.
  unfold bech32x_create_checksum. cbn [py_add bind]. now rewrite <- app_assoc.
Qed.

Lemma encode_list (hrp : pystr) (data : list Z) :
  Forall (fun d => 0 <= d < 32) data ->
  bech32x_encode hrp (PList data)
  = Return (hrp ++ str "1" ++
            map symbol_char
              (data ++ mask_digits 27
                 (Z.lxor (bech32x_polymod (bech32x_hrp_expand hrp ++ data ++ repeat 0 27)) 1))).
Proof.
  intros Hd. unfold bech32x_encode. rewrite create_checksum_list. cbn [bind py_add].
  rewrite (mapM_Return _ symbol_char); [reflexivity|].
  intros d Hin. apply symbol_char_spec.
  assert (Hall : Forall (fun d => 0 <= d < 32) (data ++ mask_digits 27
     (Z.lxor (bech32x_polymod (bech32x_hrp_expand hrp ++ data ++ repeat 0 27)) 1))).
  { apply Forall_app. split; [assumption | apply mask_digits_symbols]. }
  rewrite Forall_forall in Hall. now apply Hall.
Qed.

(** ** Round trip and checksum digits *)

(** C1, as amended: for every HRP of at least one character, all in
    [33,126] and none of them an upper-case letter, and all data symbols in
    [0,31] with an encoded string of at most 1023 characters,
    [bech32x_encode] returns a string that [bech32x_decode] takes back to
    the HRP and the data. *)
Theorem bech32x_decode_encode (hrp : pystr) (data : list Z) :
  hrp <> [] ->
  Forall (fun x => 33 <= ord x <= 126) hrp ->
  lower hrp = hrp ->
  Forall (fun d => 0 <= d < 32) data ->
  len hrp + 1 + len data + 27 <= 1023 ->
  exists bech,
    bech32x_encode hrp (PList data) = Return bech
    /\ bech32x_decode bech = Some (hrp, data).
Proof.
  intros Hne Hrange Hlow Hdata Hlen.
  rewrite encode_list by assumption. eexists. split; [reflexivity|].
  set (checksum := mask_digits 27 _).
  assert (Hcs : Forall (fun d => 0 <= d < 32) checksum) by apply mask_digits_symbols.
  assert (Hcl : length checksum = 27%nat) by apply mask_digits_length.
  assert (Hall : Forall (fun d => 0 <= d < 32) (data ++ checksum))
    by (apply Forall_app; split; assumption).
  rewrite bech32x_decode_structure, structure_joined; try assumption.
  - cbv zeta. rewrite find_symbol_chars by assumption.
    unfold bech32x_verify_checksum. rewrite app_assoc.
    unfold checksum at 1. rewrite app_assoc.
    rewrite polymod_with_checksum.
    + cbn [Z.eqb Pos.eqb]. f_equal. f_equal.
      change (-27) with (Z.opp 27).
      rewrite py_slice_to_neg by lia. rewrite length_app, Hcl.
      replace (length data + 27 - Z.to_nat 27)%nat with (length data + 0)%nat by lia.
      rewrite firstn_app_2. cbn [firstn]. apply app_nil_r.
    + apply Forall_app. split.
      * apply hrp_expand_below. eapply Forall_impl; [|exact Hrange].
        cbv beta. intros x Hx. lia.
      * now apply symbols_below.
  - rewrite len_app. unfold len at 2. rewrite Hcl. pose proof (len_nonneg data). lia.
  - rewrite len_app. unfold len at 3. rewrite Hcl. lia.
Qed.

Lemma bech32x_decode_encode_witness :
  exists bech,
    bech32x_encode (str "tx") (PList [31; 0; 7]) = Return bech
    /\ bech32x_decode bech = Some (str "tx", [31; 0; 7]).
Proof.
  apply (bech32x_decode_encode (str "tx") [31; 0; 7]).
  - discriminate.
  - repeat constructor; vm_compute; discriminate.
  - reflexivity.
  - repeat constructor; vm_compute; discriminate.
  - vm_compute. discriminate.
Defined.

(** C1 as stated fails for an upper-case HRP: the encoder appends
    lower-case characters, and the decoder rejects the mixed case. *)
Lemma bech32x_decode_encode_uppercase :
  let hrp := str "A" in
  let data := @nil Z in
  (hrp <> [] /\ Forall (fun x => 33 <= ord x <= 126) hrp
   /\ (lower hrp = hrp \/ upper hrp = hrp)
   /\ Forall (fun d => 0 <= d < 32) data
   /\ len hrp + 1 + len data + 27 <= 1023)
  /\ exists bech,
       bech32x_encode hrp (PList data) = Return bech
       /\ bech32x_decode bech = None.
Proof.
  cbv zeta. split.
  - split; [discriminate|]. split; [repeat constructor; vm_compute; discriminate|].
    split; [right; reflexivity|]. split; [constructor | vm_compute; discriminate].
  - exists (str "A1uvtvscxxkxdw7szp0kt9kexd3ju"). split; vm_compute; reflexivity.
Qed.

Lemma mask_digits_base32 (n : nat) (c : Z) : mask_digits n c = base32_digits n c.
Proof.
  unfold mask_digits, base32_digits. apply map_ext_in. intros i Hi.
  apply In_py_range in Hi.
  change 31 with (Z.ones 5). rewrite Z.land_ones, Z.shiftr_div_pow2 by lia.
  rewrite Z.pow_mul_r by lia. reflexivity.
Qed.

(** C8: for every HRP and every data list, [bech32x_create_checksum]
    returns 27 integers in [0,31], the base-32 digits, most significant
    first, of the polymod of the expanded HRP, the data and 27 zeros,
    XOR 1. *)
Theorem bech32x_create_checksum_digits (hrp : pystr) (data : list Z) :
  let residue :=
    Z.lxor (bech32x_polymod (bech32x_hrp_expand hrp ++ data ++ repeat 0 27)) 1 in
  bech32x_create_checksum hrp (PList data) = Return (base32_digits 27 residue)
  /\ length (base32_digits 27 residue) = 27%nat
  /\ Forall (fun d => 0 <= d <= 31) (base32_digits 27 residue).
Proof.
  cbv zeta. rewrite create_checksum_list, mask_digits_base32.
  split; [reflexivity|]. rewrite <- mask_digits_base32.
  split; [apply mask_digits_length|].
  eapply Forall_impl; [|apply mask_digits_symbols]. cbv beta. intros d Hd. lia.
Qed.

(** For data symbols and a prefix of code points the 27 digits spell the
    whole residue: it is below [2 ^ 135]. *)
Lemma checksum_spells_residue (hrp : pystr) (data : list Z) :
  Forall (fun x => ord x < 2 ^ 140) hrp ->
  Forall (fun d => 0 <= d < 32) data ->
  let residue :=
    Z.lxor (bech32x_polymod (bech32x_hrp_expand hrp ++ data ++ repeat 0 27)) 1 in
  from_digits (base32_digits 27 residue) 0 = residue.
Proof.
  intros Hh Hd residue. rewrite <- mask_digits_base32, from_mask_digits.
  apply Z.mod_small. change (32 ^ Z.of_nat 27) with (2 ^ 135).
  unfold residue. apply lxor_below; [lia| |lia].
  apply bech32x_polymod_below. repeat (apply Forall_app; split).
  - apply Forall_map. eapply Forall_impl; [|exact Hh]. cbv beta. intros x Hx.
    rewrite Z.shiftr_div_pow2 by lia. unfold ord in *. split.
    + apply Z.div_pos; lia.
    + apply Z.div_lt_upper_bound; [lia|]. change (2 ^ 5 * 2 ^ 135) with (2 ^ 140). lia.
  - constructor; [lia|constructor].
  - apply Forall_map. apply Forall_forall. intros x _.
    change 31 with (Z.ones 5). rewrite Z.land_ones by lia.
    pose proof (Z.mod_pos_bound (ord x) (2 ^ 5) ltac:(lia)).
    change (2 ^ 5) with 32 in *. lia.
  - now apply symbols_below.
  - apply Forall_forall. intros z Hz. apply repeat_spec in Hz. lia.
Qed.

(** ** The top-level [encode] on bytes out of range *)

Lemma convert_emit_terminates (fuel : nat) (acc bits tobits maxv : Z) (ret : list Z) :
  1 <= tobits -> 0 <= bits <= Z.of_nat fuel ->
  exists bits' ret',
    convert_emit fuel acc bits tobits maxv ret = Some (bits', ret') /\ 0 <= bits'.
Proof.
  intros Ht. revert bits ret.
  induction fuel as [|fuel IH]; intros bits ret Hb; cbn [convert_emit].
  - replace (bits >=? tobits) with false by lia.
    exists bits, ret. split; [reflexivity | lia].
  - destruct (bits >=? tobits) eqn:E.
    + apply IH. lia.
    + exists bits, ret. split; [reflexivity | lia].
Qed.

Lemma out_of_byte_range (value : Z) :
  value < 0 \/ 255 < value ->
  (value <? 0) || negb (Z.shiftr value 8 =? 0) = true.
Proof.
  intros [H|H].
  - replace (value <? 0) with true by lia. reflexivity.
  - rewrite Z.shiftr_div_pow2 by lia. change (2 ^ 8) with 256.
    assert (1 <= value / 256) by (apply Z.div_le_lower_bound; lia).
    replace (value / 256 =? 0) with false by lia. apply orb_true_r.
Qed.

Lemma convert_loop_rejects (data : list Z) (maxv max_acc acc bits : Z) (ret : list Z) :
  Exists (fun v => v < 0 \/ 255 < v) data ->
  0 <= bits ->
  convert_loop data 8 5 maxv max_acc acc bits ret = Return None.
Proof.
  revert acc bits ret. induction data as [|v data IH]; intros acc bits ret Hex Hb.
  - inversion Hex.
  - cbn [convert_loop].
    destruct ((v <? 0) || negb (Z.shiftr v 8 =? 0)) eqn:Hv; [reflexivity|].
    inversion Hex as [? ? Hbad|? ? Htail]; subst.
    + rewrite out_of_byte_range in Hv by assumption. discriminate.
    + destruct (convert_emit_terminates (Z.to_nat (bits + 8))
                  (Z.land (Z.lor (Z.shiftl acc 8) v) max_acc) (bits + 8) 5 maxv ret)
        as [bits' [ret' [E Hb']]]; [lia | lia |].
      rewrite E. now apply IH.
Qed.

(** C9 fails on the code: for every HRP and every byte list with a value
    outside [0,255], [convertbits] returns [None], and [encode] passes it on
    to [bech32x_encode], where the list concatenation raises [TypeError]. *)
Theorem encode_raises_TypeError (hrp : pystr) (data : list Z) :
  Exists (fun v => v < 0 \/ 255 < v) data ->
  convertbits data 8 5 true = Return PNone
  /\ encode hrp data = Raise TypeError.
Proof.
  intros Hex.
  assert (E : convertbits data 8 5 true = Return PNone).
  { unfold convertbits. rewrite convert_loop_rejects by (assumption || lia). reflexivity. }
  split; [assumption|]. unfold encode. rewrite E. reflexivity.
Qed.

Lemma encode_raises_TypeError_witness :
  convertbits [256] 8 5 true = Return PNone
  /\ encode (str "tx") [256] = Raise TypeError.
Proof.
  apply (encode_raises_TypeError (str "tx") [256]).
  constructor. right. reflexivity.
Defined.

(** ** What the structural checks establish *)

Lemma rfind_from_nth (c : N) (s : pystr) (i last : Z) :
  last < i ->
  (rfind_from c s i last = last /\ py_in c s = false)
  \/ (i <= rfind_from c s i last < i + len s
      /\ nth_error s (Z.to_nat (rfind_from c s i last - i)) = Some c
      /\ py_in c (skipn (S (Z.to_nat (rfind_from c s i last - i))) s) = false).
Proof.
  revert i last. induction s as [|x s IH]; intros i last Hlast; cbn [rfind_from].
  - left. split; reflexivity.
  - rewrite len_cons. pose proof (len_nonneg s) as Hs.
    destruct (N.eqb x c) eqn:Hx.
    + destruct (IH (i + 1) i ltac:(lia)) as [[E Hin]|[R [Hn Hk]]].
      * right. rewrite E, Z.sub_diag. apply N.eqb_eq in Hx. subst x.
        split; [lia|]. split; [reflexivity | exact Hin].
      * right. split; [lia|].
        replace (Z.to_nat (rfind_from c s (i + 1) i - i))
          with (S (Z.to_nat (rfind_from c s (i + 1) i - (i + 1)))) by lia.
        split; assumption.
    + destruct (IH (i + 1) last ltac:(lia)) as [[E Hin]|[R [Hn Hk]]].
      * left. split; [assumption|]. cbn. now rewrite N.eqb_sym, Hx.
      * right. split; [lia|].
        replace (Z.to_nat (rfind_from c s (i + 1) last - i))
          with (S (Z.to_nat (rfind_from c s (i + 1) last - (i + 1)))) by lia.
        split; assumption.
Qed.

Lemma py_rfind_split (c : N) (s : pystr) :
  0 <= py_rfind s c ->
  py_rfind s c < len s
  /\ s = firstn (Z.to_nat (py_rfind s c)) s ++ c :: skipn (S (Z.to_nat (py_rfind s c))) s
  /\ py_in c (skipn (S (Z.to_nat (py_rfind s c))) s) = false.
Proof.
  intros H. unfold py_rfind in *.
  destruct (rfind_from_nth c s 0 (-1) ltac:(lia)) as [[E _]|[R [Hn Hk]]]; [lia|].
  rewrite Z.sub_0_r in *. split; [lia|]. split; [|assumption].
  now apply firstn_skipn_middle.
Qed.

(** A string that passes the structural checks is, in lower case, its
    prefix, the separator and at least 26 characters of the alphabet. *)
Lemma structure_spec (bech hrp chars : pystr) :
  structure bech = Some (hrp, chars) ->
  lower bech = hrp ++ str "1" ++ chars
  /\ forallb (fun x => py_in x CHARSET) chars = true
  /\ 1 <= len hrp /\ 26 <= len chars /\ len hrp + 1 + len chars <= 1023.
Proof.
  unfold structure.
  destruct (existsb _ bech || _); [discriminate|]. cbv zeta.
  set (L := lower bech). set (pos := py_rfind L 49%N).
  destruct ((pos <? 1) || (pos + 27 >? len L) || (len L >? 1023)) eqn:C2; [discriminate|].
  destruct (forallb _ _) eqn:C3; [|discriminate]. cbn [negb].
  intros E. injection E as Eh Ec.
  apply orb_false_iff in C2. destruct C2 as [C2 C2c].
  apply orb_false_iff in C2. destruct C2 as [C2a C2b].
  destruct (py_rfind_split 49%N L ltac:(fold pos; lia)) as [Hlt [Hsplit _]].
  fold pos in Hlt, Hsplit.
  rewrite py_slice_to_firstn in Eh by lia.
  rewrite py_slice_from_skipn in Ec, C3 by lia.
  replace (Z.to_nat (pos + 1)) with (S (Z.to_nat pos)) in Ec, C3 by lia.
  rewrite Eh, Ec in Hsplit. rewrite Ec in C3.
  assert (Hlen : len L = len hrp + 1 + len chars).
  { rewrite Hsplit at 1. rewrite len_app, len_cons. lia. }
  assert (Hh : len hrp = pos).
  { rewrite <- Eh. unfold len. rewrite length_firstn. unfold len in Hlt. lia. }
  change (str "1") with [49%N]. cbn [app].
  repeat split; try assumption; lia.
Qed.

Lemma mapM_getitem_find (chars : pystr) :
  forallb (fun x => py_in x CHARSET) chars = true ->
  mapM (py_getitem CHARSET) (map (py_find CHARSET) chars) = Return chars.
Proof.
  induction chars as [|x chars IH]; intros H; [reflexivity|].
  cbn in H. apply andb_true_iff in H. destruct H as [Hx Hc].
  cbn [map mapM]. destruct (CHARSET_find x Hx) as [_ ->]. cbn [bind].
  now rewrite IH.
Qed.

(** ** The search of the correcting decoder *)

Lemma polyeval_one (l : Z) : polyeval [1] l = 1.
Proof. reflexivity. Qed.

(** With no error assumed the solver has no matrix to reduce and no root to
    find. *)
Lemma bech32x_solver_0 (s : list Z) (siz : Z) : bech32x_solver s siz 0 = Some [].
Proof.
  unfold bech32x_solver.
  change (solve_matrix s 0) with (Some (@nil (list Z))). cbv iota beta zeta.
  change (locator [] 0) with [1].
  f_equal. generalize (py_range siz) as l.
  induction l as [|p l IH]; [reflexivity|]. cbn [fold_left].
  rewrite polyeval_one. exact IH.
Qed.

Lemma bech32x_solver_None (s : list Z) (siz err : Z) :
  bech32x_solver s siz err = None <-> solve_matrix s err = None.
Proof.
  unfold bech32x_solver. destruct (solve_matrix s err); split; congruence.
Qed.

(** On the zero syndrome every system of one to seven unknowns lacks a
    pivot. *)
Lemma solve_matrix_zero_syndrome (t : Z) :
  In t [7; 6; 5; 4; 3; 2; 1] -> solve_matrix (repeat 0 14) t = None.
Proof.
  intros H. repeat (destruct H as [<-|H]; [vm_compute; reflexivity|]). destruct H.
Qed.

Lemma syndrome_valid (values : list Z) :
  bech32x_polymod values = 1 -> syndrome (residue_digits values) = repeat 0 14.
Proof.
  intros H. unfold residue_digits. rewrite H. vm_compute. reflexivity.
Qed.

Section Search.

(** The arguments the loop over the error counts carries along. *)
Variables (hrpgot : pystr) (hrp_ext values syn : list Z) (siz : Z).

Lemma correct_search_skip
  (skipped rest : list Z) :
  (forall t, In t skipped -> solve_matrix syn t = None) ->
  correct_search hrpgot hrp_ext values syn siz (skipped ++ rest)
  = correct_search hrpgot hrp_ext values syn siz rest.
Proof.
  induction skipped as [|t skipped IH]; intros H; [reflexivity|].
  cbn [app correct_search].
  rewrite (proj2 (bech32x_solver_None syn siz t)) by (apply H; now left).
  apply IH. intros t' Ht'. apply H. now right.
Qed.

(** When none of the systems for seven down to one errors has a solution,
    the count 0 is reached and the input is returned as it came. *)
Lemma correct_search_no_solution :
  (forall t, In t [7; 6; 5; 4; 3; 2; 1] -> solve_matrix syn t = None) ->
  correct_search hrpgot hrp_ext values syn siz [7; 6; 5; 4; 3; 2; 1; 0]
  = (chars <- mapM (py_getitem CHARSET) (py_slice_from values (len hrp_ext)) ;;
     Return (Corrected hrpgot (py_slice values (len hrp_ext) (-27)) chars [])).
Proof.
  intros H.
  change [7; 6; 5; 4; 3; 2; 1; 0] with ([7; 6; 5; 4; 3; 2; 1] ++ [0]).
  rewrite correct_search_skip by assumption.
  cbn [correct_search]. rewrite bech32x_solver_0. reflexivity.
Qed.

(** An acceptance without correction means that no system of one to seven
    unknowns had a solution. *)
Lemma correct_search_uncorrected
  (counts rest : list Z) (hrp : pystr) (data : list Z) (chars : pystr) :
  Forall (fun t => 1 <= t) counts ->
  correct_search hrpgot hrp_ext values syn siz (counts ++ rest)
  = Return (Corrected hrp data chars []) ->
  forall t, In t counts -> solve_matrix syn t = None.
Proof.
  induction counts as [|c counts IH]; intros Hc H t Ht; [destruct Ht|].
  inversion Hc as [|? ? Hc1 Hc']; subst.
  cbn [app correct_search] in H.
  destruct (bech32x_solver syn siz c) as [ret|] eqn:Hsol.
  - exfalso. destruct (len ret =? c) eqn:Hlen; [|discriminate].
    destruct (apply_corrections values ret) as [values'| |]; try discriminate.
    cbn [bind] in H.
    destruct (mapM _ _) as [chars'| |]; try discriminate.
    cbn [bind] in H. injection H as _ _ _ Hpos.
    apply Z.eqb_eq in Hlen.
    destruct ret; [|discriminate]. unfold len in Hlen. cbn [length] in Hlen. lia.
  - destruct Ht as [<-|Ht].
    + now apply bech32x_solver_None in Hsol.
    + now apply (IH Hc' H).
Qed.

Lemma correct_search_success
  (counts : list Z) (hrp : pystr) (data : list Z) (s : pystr) (positions : list Z) :
  correct_search hrpgot hrp_ext values syn siz counts
  = Return (Corrected hrp data s positions) ->
  exists ret values',
    hrp = hrpgot
    /\ bech32x_solver syn siz (len ret) = Some ret
    /\ apply_corrections values ret = Return values'
    /\ mapM (py_getitem CHARSET) (py_slice_from values' (len hrp_ext)) = Return s
    /\ data = py_slice values' (len hrp_ext) (-27)
    /\ positions = map (fun pe => siz - 1 - fst pe) ret.
Proof.
  induction counts as [|i counts IH]; intros H; [discriminate|].
  cbn [correct_search] in H.
  destruct (bech32x_solver syn siz i) as [ret|] eqn:Hsol; [|now apply IH].
  destruct (len ret =? i) eqn:Hlen; [|discriminate].
  apply Z.eqb_eq in Hlen. subst i.
  destruct (apply_corrections values ret) as [values'| |] eqn:Hv; try discriminate.
  cbn [bind] in H.
  destruct (mapM _ _) as [chars| |] eqn:Hc; try discriminate.
  cbn [bind] in H. injection H as <- <- <- <-.
  exists ret, values'. repeat split; assumption.
Qed.

End Search.

Lemma py_slice_from_app (a b : list Z) : py_slice_from (a ++ b) (len a) = b.
Proof.
  rewrite py_slice_from_skipn by apply len_nonneg.
  unfold len. rewrite Nat2Z.id, skipn_app, skipn_all, Nat.sub_diag. reflexivity.
Qed.

(** C3, as amended: for every string that [bech32x_decode] accepts, with a
    matching or wildcard expected HRP, [base32x_correct] returns the HRP, the
    data, no corrected position, and as re-encoded string the characters
    that follow the separator in the case-normalized input, without the HRP
    and the separator. *)
Theorem base32x_correct_valid (expected_hrp bech hrp : pystr) (data : list Z) :
  bech32x_decode bech = Some (hrp, data) ->
  expected_hrp = str "*" \/ expected_hrp = hrp ->
  exists chars,
    lower bech = hrp ++ str "1" ++ chars
    /\ base32x_correct expected_hrp bech = Return (Corrected hrp data chars []).
Proof.
  intros Hdec Hexp. rewrite bech32x_decode_structure in Hdec.
  rewrite base32x_correct_structure.
  destruct (structure bech) as [[hrpgot chars]|] eqn:Hs; [|discriminate].
  cbv zeta in Hdec.
  destruct (bech32x_verify_checksum _ _) eqn:Hv; [|discriminate].
  injection Hdec as -> Hd.
  destruct (structure_spec _ _ _ Hs) as [Hl [Hin _]].
  exists chars. split; [assumption|].
  replace (negb (pystr_eqb expected_hrp (str "*")) && negb (pystr_eqb hrp expected_hrp))
    with false.
  2:{ destruct Hexp as [-> | ->]; [reflexivity|].
      rewrite pystr_eqb_refl. cbn. now rewrite andb_false_r. }
  cbv zeta. unfold bech32x_verify_checksum in Hv. apply Z.eqb_eq in Hv.
  rewrite syndrome_valid by assumption.
  rewrite correct_search_no_solution by apply solve_matrix_zero_syndrome.
  rewrite py_slice_from_app, mapM_getitem_find by assumption. cbn [bind].
  change (-27) with (Z.opp 27). rewrite py_slice_app_neg by lia.
  change (Z.opp 27) with (-27). now rewrite Hd.
Qed.

Lemma base32x_correct_valid_witness :
  exists chars,
    lower (str "TX1XT6MEVGD32VMRWPTADMZ38JPYCX") = str "tx" ++ str "1" ++ chars
    /\ base32x_correct (str "*") (str "TX1XT6MEVGD32VMRWPTADMZ38JPYCX")
       = Return (Corrected (str "tx") [] chars []).
Proof.
  apply (base32x_correct_valid (str "*") (str "TX1XT6MEVGD32VMRWPTADMZ38JPYCX")
           (str "tx") []).
  - vm_compute. reflexivity.
  - left. reflexivity.
Defined.

(** C3 as stated fails: the string returned for a valid lower-case input is
    not the input, it lacks the HRP and the separator. *)
Lemma base32x_correct_valid_not_whole :
  let bech := str "tx1xt6mevgd32vmrwptadmz38jpycx" in
  bech32x_decode bech = Some (str "tx", [])
  /\ lower bech = bech
  /\ base32x_correct (str "tx") bech
     = Return (Corrected (str "tx") [] (str "xt6mevgd32vmrwptadmz38jpycx") [])
  /\ str "xt6mevgd32vmrwptadmz38jpycx" <> bech.
Proof.
  cbv zeta. repeat split; try (vm_compute; reflexivity). discriminate.
Qed.

(** The correcting decoder accepts a well-formed string as valid exactly
    when the seven systems all lack a pivot. *)
Lemma base32x_correct_accepts (expected_hrp bech hrpgot chars : pystr) :
  structure bech = Some (hrpgot, chars) ->
  expected_hrp = str "*" \/ expected_hrp = hrpgot ->
  let values := bech32x_hrp_expand hrpgot ++ map (py_find CHARSET) chars in
  let syn := syndrome (residue_digits values) in
  (exists hrp data s, base32x_correct expected_hrp bech = Return (Corrected hrp data s []))
  <-> (forall t, In t [7; 6; 5; 4; 3; 2; 1] -> solve_matrix syn t = None).
Proof.
  intros Hs Hexp values syn. rewrite base32x_correct_structure, Hs.
  replace (negb (pystr_eqb expected_hrp (str "*")) && negb (pystr_eqb hrpgot expected_hrp))
    with false.
  2:{ destruct Hexp as [-> | ->]; [reflexivity|].
      rewrite pystr_eqb_refl. cbn. now rewrite andb_false_r. }
  cbv zeta. fold values. fold syn. split.
  - intros [hrp [data [s H]]].
    change [7; 6; 5; 4; 3; 2; 1; 0] with ([7; 6; 5; 4; 3; 2; 1] ++ [0]) in H.
    eapply correct_search_uncorrected; [|exact H].
    repeat constructor; discriminate.
  - intros H. rewrite correct_search_no_solution by assumption.
    destruct (structure_spec _ _ _ Hs) as [_ [Hin _]].
    unfold values. rewrite py_slice_from_app, mapM_getitem_find by assumption.
    cbn [bind]. eauto.
Qed.

(** C2 fails on the code.  The string below is well formed, its syndrome is
    not zero and [bech32x_decode] rejects it, but its first seven syndromes
    vanish: every system from seven down to one unknown lacks a pivot in
    its first column, the count 0 is reached, and [base32x_correct] returns
    the codeword as valid, with no corrected position. *)
Theorem base32x_correct_nonzero_syndrome_accepted :
  let bech := str "tx1xt6mevgd32vmzmwyjemy06l0ymf" in
  let chars := str "xt6mevgd32vmzmwyjemy06l0ymf" in
  let values := bech32x_hrp_expand (str "tx") ++ map (py_find CHARSET) chars in
  structure bech = Some (str "tx", chars)
  /\ syndrome (residue_digits values)
     = [0; 0; 0; 0; 0; 0; 0; 451; 413; 58; 523; 112; 912; 9]
  /\ bech32x_decode bech = None
  /\ base32x_correct (str "*") bech = Return (Corrected (str "tx") [] chars []).
Proof.
  cbv zeta. repeat split; vm_compute; reflexivity.
Qed.

(** C4 fails on the code: 26 characters follow the separator of the string
    below, one fewer than a checksum, and both decoders go on to the
    checksum and accept it. *)
Theorem short_codeword_accepted :
  let bech := str "o1qajt00ak7krvyflyj0ujqgdhrh" in
  len (py_slice_from bech (py_rfind bech 49%N + 1)) = 26
  /\ bech32x_decode bech = Some (str "o", [])
  /\ base32x_correct (str "*") bech
     = Return (Corrected (str "o") [] (str "qajt00ak7krvyflyj0ujqgdhrh") []).
Proof.
  cbv zeta. repeat split; vm_compute; reflexivity.
Qed.

(** Both decoders do reject a string with fewer than 26 characters after
    its last separator. *)
Lemma structure_short (bech : pystr) :
  len (lower bech) - (py_rfind (lower bech) 49%N + 1) < 26 -> structure bech = None.
Proof.
  intros H. unfold structure. destruct (existsb _ bech || _); [reflexivity|].
  cbv zeta.
  replace (py_rfind (lower bech) 49%N + 27 >? len (lower bech)) with true by lia.
  now rewrite orb_true_r.
Qed.

(** ** The roots and magnitudes the solver returns *)

Lemma fold_left_roots {B : Type} (f : Z -> bool) (g : Z -> B) (l : list Z) (acc : list (Z * B)) :
  fold_left (fun ret p => if f p then ret ++ [(p, g p)] else ret) l acc
  = acc ++ map (fun p => (p, g p)) (filter f l).
Proof.
  revert acc. induction l as [|p l IH]; intros acc; cbn [fold_left filter].
  - now rewrite app_nil_r.
  - rewrite IH. destruct (f p); [|reflexivity].
    cbn [map]. now rewrite <- app_assoc.
Qed.

Lemma bech32x_solver_solved (s : list Z) (siz err : Z) (m : matrix) :
  solve_matrix s err = Some m ->
  bech32x_solver s siz err
  = Some (map (fun p =>
                 (p, shift (polyeval (evaluator s (locator m err)) (- p))
                       (- (19 * p
                           + py_index 0 LOG (polyeval (locator_derivative m err) (- p))))))
            (roots (locator m err) siz)).
Proof.
  intros H. unfold bech32x_solver. rewrite H. cbv zeta. f_equal.
  exact (fold_left_roots (fun p => polyeval (locator m err) (- p) =? 0)
           (fun p => shift (polyeval (evaluator s (locator m err)) (- p))
                       (- (19 * p
                           + py_index 0 LOG (polyeval (locator_derivative m err) (- p)))))
           (py_range siz) []).
Qed.



(** ** The Forney step *)

Lemma list_update_length {A : Type} (l : list A) (k : nat) (v : A) :
  length (list_update l k v) = length l.
Proof.
  revert k. induction l as [|x l IH]; intros [|k]; cbn; try reflexivity.
  now rewrite IH.
Qed.

Lemma py_set_length {A : Type} (l : list A) (i : Z) (v : A) :
  length (py_set l i v) = length l.
Proof.
  unfold py_set, py_setitem. destruct ((0 <=? _) && _); [|reflexivity].
  apply list_update_length.
Qed.

Lemma fold_left_length {A B : Type} (f : list A -> B -> list A) (l : list B) (acc : list A) :
  (forall a b, length (f a b) = length a) ->
  length (fold_left f l acc) = length acc.
Proof.
  intros H. revert acc. induction l as [|b l IH]; intros acc; cbn; [reflexivity|].
  now rewrite IH, H.
Qed.

Lemma polymul_length (a b : list Z) :
  length (polymul a b) = Z.to_nat (len a + len b - 1).
Proof.
  unfold polymul. rewrite fold_left_length; [apply repeat_length|].
  intros ret x. destruct (negb _); [|reflexivity].
  apply fold_left_length. intros ret' y. apply py_set_length.
Qed.

(** *** [polymul] is the product of polynomials over the field *)

Section Update.

Context {A : Type}.

Lemma nth_error_list_update (l : list A) (i k : nat) (v : A) :
  nth_error (list_update l i v) k
  = if Nat.eqb k i then (if Nat.ltb i (length l) then Some v else None)
    else nth_error l k.
Proof.
  revert i k. induction l as [|x l IH]; intros i k.
  - destruct k as [|k]; cbn [list_update nth_error length Nat.ltb Nat.leb].
    + destruct (Nat.eqb 0 i); reflexivity.
    + destruct (Nat.eqb (S k) i); reflexivity.
  - destruct i as [|i], k as [|k]; cbn [list_update nth_error Nat.eqb]; try reflexivity.
    rewrite IH. destruct (Nat.eqb k i); [|reflexivity].
    cbn [length]. change (S i <? S (length l))%nat with (i <? length l)%nat.
    reflexivity.
Qed.

Lemma py_index_py_set (d : A) (l : list A) (i k : Z) (v : A) :
  0 <= i < len l -> 0 <= k ->
  py_index d (py_set l i v) k = if k =? i then v else py_index d l k.
Proof.
  intros Hi Hk. unfold py_index, py_set, py_setitem, py_getitem.
  replace (i <? 0) with false by lia. replace (k <? 0) with false by lia.
  replace ((0 <=? i) && (i <? len l)) with true by lia.
  unfold len in *. rewrite list_update_length, nth_error_list_update.
  destruct (k =? i) eqn:E.
  - apply Z.eqb_eq in E. subst k.
    replace ((0 <=? i) && (i <? Z.of_nat (length l))) with true by lia.
    rewrite Nat.eqb_refl.
    replace (Z.to_nat i <? length l)%nat with true; [reflexivity|].
    symmetry. apply Nat.ltb_lt. lia.
  - replace (Z.to_nat k =? Z.to_nat i)%nat with false; [reflexivity|].
    symmetry. apply Nat.eqb_neq. lia.
Qed.

End Update.

Section Product.

Variables a b : list Z.

(** What the inner loop adds to the coefficient of degree [k], for the
    degrees [ys] of [b] it runs over. *)
Lemma polymul_inner (x l : Z) (ys : list Z) (ret : list Z) (k : Z) :
  0 <= x -> 0 <= k ->
  NoDup ys ->
  Forall (fun y => 0 <= y /\ x + y < len ret) ys ->
  py_index 0
    (fold_left
       (fun ret y =>
          py_set ret (x + y) (Z.lxor (py_index 0 ret (x + y)) (shift (py_index 0 b y) l)))
       ys ret) k
  = Z.lxor (py_index 0 ret k)
      (if existsb (Z.eqb (k - x)) ys then shift (py_index 0 b (k - x)) l else 0).
Proof.
  intros Hx Hk. revert ret. induction ys as [|y ys IH]; intros ret Hnd Hys.
  - cbn. now rewrite Z.lxor_0_r.
  - inversion Hnd as [|? ? Hy Hnd']; subst.
    inversion Hys as [|? ? [Hy0 Hyl] Hys']; subst.
    cbn [fold_left existsb]. rewrite IH; [|assumption|].
    2:{ eapply Forall_impl; [|exact Hys']. cbv beta. intros z Hz.
        unfold len in *. now rewrite py_set_length. }
    rewrite py_index_py_set by lia.
    destruct (k =? x + y) eqn:E.
    + apply Z.eqb_eq in E. replace (k - x) with y by lia.
      rewrite Z.eqb_refl. cbn [orb].
      replace (existsb (Z.eqb y) ys) with false.
      * rewrite Z.lxor_0_r. now subst k.
      * symmetry. apply not_true_is_false. intros F.
        apply existsb_exists in F. destruct F as [z [Hz Ez]].
        apply Z.eqb_eq in Ez. subst z. contradiction.
    + replace (k - x =? y) with false by lia. reflexivity.
Qed.

Lemma py_range_NoDup (n : Z) : NoDup (py_range n).
Proof.
  unfold py_range. apply Injective_map_NoDup; [|apply seq_NoDup].
  intros i j. apply Nat2Z.inj.
Qed.

Lemma existsb_py_range (n j : Z) :
  existsb (Z.eqb j) (py_range n) = (0 <=? j) && (j <? n).
Proof.
  destruct ((0 <=? j) && (j <? n)) eqn:E.
  - apply existsb_exists. exists j. split; [apply In_py_range; lia | apply Z.eqb_refl].
  - apply not_true_is_false. intros F. apply existsb_exists in F.
    destruct F as [z [Hz Ez]]. apply Z.eqb_eq in Ez. subst z.
    apply In_py_range in Hz. lia.
Qed.

(** The outer loop, over the degrees [xs] of [a]. *)
Lemma polymul_outer (xs : list Z) (ret : list Z) (k : Z) :
  0 <= k ->
  Forall (fun x => 0 <= x /\ x + len b <= len ret) xs ->
  py_index 0
    (fold_left
       (fun ret x =>
          if negb (py_index 0 a x =? 0)
          then
            let l := py_index 0 LOG (py_index 0 a x) in
            fold_left
              (fun ret y =>
                 py_set ret (x + y)
                   (Z.lxor (py_index 0 ret (x + y)) (shift (py_index 0 b y) l)))
              (py_range (len b)) ret
          else ret)
       xs ret) k
  = fold_left
      (fun acc x =>
         Z.lxor acc (if (x <=? k) && (k <? x + len b)
                     then gf_mul (py_index 0 a x) (py_index 0 b (k - x))
                     else 0))
      xs (py_index 0 ret k).
Proof.
  intros Hk. revert ret. induction xs as [|x xs IH]; intros ret Hxs; [reflexivity|].
  inversion Hxs as [|? ? [Hx0 Hxl] Hxs']; subst. cbn [fold_left].
  assert (Hlen : forall l ys,
             length (fold_left
                       (fun ret y =>
                          py_set ret (x + y)
                            (Z.lxor (py_index 0 ret (x + y)) (shift (py_index 0 b y) l)))
                       ys ret) = length ret).
  { intros l ys. apply fold_left_length. intros r y. apply py_set_length. }
  unfold gf_mul at 2.
  destruct (py_index 0 a x =? 0) eqn:Ea; cbn [negb].
  - rewrite IH by assumption. f_equal.
    destruct ((x <=? k) && (k <? x + len b)); now rewrite Z.lxor_0_r.
  - cbv zeta. rewrite IH.
    2:{ eapply Forall_impl; [|exact Hxs']. cbv beta. intros z Hz.
        unfold len in *. rewrite Hlen. exact Hz. }
    f_equal. rewrite polymul_inner; try assumption.
    + rewrite existsb_py_range.
      replace ((0 <=? k - x) && (k - x <? len b))
        with ((x <=? k) && (k <? x + len b)) by lia.
      reflexivity.
    + apply py_range_NoDup.
    + apply Forall_forall. intros y Hy. apply In_py_range in Hy. lia.
Qed.

(** Every coefficient of [polymul a b] is the coefficient of the product. *)
Lemma polymul_coefficient (k : Z) :
  0 <= k ->
  py_index 0 (polymul a b) k = product_coefficient a b k.
Proof.
  intros Hk. unfold polymul, product_coefficient.
  rewrite polymul_outer; [|assumption|].
  - f_equal. unfold py_index, py_getitem.
    destruct (nth_error _ _) as [z|] eqn:E; [|now destruct (_ && _)].
    apply nth_error_In, repeat_spec in E. subst z. now destruct (_ && _).
  - apply Forall_forall. intros x Hx. apply In_py_range in Hx.
    unfold len in *. rewrite repeat_length. lia.
Qed.

End Product.







(** ** The symbols of a corrected codeword *)

Lemma py_getitem_In {A : Type} (l : list A) (i : Z) (x : A) :
  py_getitem l i = Return x -> In x l.
Proof.
  unfold py_getitem. destruct ((0 <=? _) && _); [|discriminate].
  destruct (nth_error l _) as [y|] eqn:E; [|discriminate].
  intros H. injection H as <-. eapply nth_error_In. exact E.
Qed.

Lemma EXP_range : Forall (fun x => 1 <= x <= 1023) EXP.
Proof.
  apply Forall_forall. intros x Hx.
  assert (C : forallb (fun x => (1 <=? x) && (x <=? 1023)) EXP = true)
    by (vm_compute; reflexivity).
  rewrite forallb_forall in C. specialize (C x Hx). lia.
Qed.

(** [shift] stays in the field. *)
Lemma shift_range (a e : Z) : 0 <= shift a e <= 1023.
Proof.
  unfold shift. destruct (a =? 0); [lia|].
  unfold py_index. destruct (py_getitem EXP _) as [x| |] eqn:E; try lia.
  apply py_getitem_In in E. pose proof EXP_range as H.
  rewrite Forall_forall in H. specialize (H x E). lia.
Qed.

Lemma bech32x_solver_magnitudes (s : list Z) (siz err : Z) (ret : list (Z * Z)) :
  bech32x_solver s siz err = Some ret ->
  Forall (fun pe => 0 <= snd pe <= 1023) ret.
Proof.
  intros H. destruct (solve_matrix s err) as [m|] eqn:Hm.
  - rewrite (bech32x_solver_solved _ _ _ _ Hm) in H. injection H as <-.
    apply Forall_map. apply Forall_forall. intros p _. apply shift_range.
  - apply (bech32x_solver_None s siz err) in Hm. congruence.
Qed.

Lemma list_update_Forall {A : Type} (P : A -> Prop) (l : list A) (k : nat) (v : A) :
  Forall P l -> P v -> Forall P (list_update l k v).
Proof.
  intros Hl Hv. revert k. induction Hl as [|x l Hx Hl' IH]; intros [|k]; cbn;
    constructor; auto.
Qed.

Lemma apply_corrections_nonneg (ret : list (Z * Z)) (values values' : list Z) :
  Forall (fun pe => 0 <= snd pe <= 1023) ret ->
  Forall (fun x => 0 <= x) values ->
  apply_corrections values ret = Return values' ->
  Forall (fun x => 0 <= x) values'.
Proof.
  revert values. induction ret as [|[p e] ret IH]; intros values Hret Hv H.
  - cbn in H. now injection H as <-.
  - inversion Hret as [|? ? He Hret']; subst. cbn [snd] in He.
    cbn [apply_corrections] in H.
    destruct (py_getitem values (- (1 + p))) as [x| |] eqn:Hx; try discriminate.
    cbn [bind] in H.
    destruct (py_setitem values (- (1 + p)) (Z.lxor x e)) as [v1| |] eqn:Hset;
      try discriminate.
    cbn [bind] in H. apply (IH v1); try assumption.
    unfold py_setitem in Hset. destruct ((0 <=? _) && _); [|discriminate].
    injection Hset as <-. apply list_update_Forall; [assumption|].
    apply py_getitem_In in Hx. rewrite Forall_forall in Hv. specialize (Hv x Hx).
    apply Z.lxor_nonneg. lia.
Qed.


(** A lookup in [CHARSET] that does not raise had its index in [-32, 31]. *)
Lemma mapM_getitem_CHARSET (l : list Z) (s : pystr) :
  mapM (py_getitem CHARSET) l = Return s ->
  Forall (fun x => -32 <= x <= 31) l /\ s = map symbol_char l.
Proof.
  revert s. induction l as [|x l IH]; intros s H.
  - cbn in H. injection H as <-. split; [constructor | reflexivity].
  - cbn [mapM] in H. destruct (py_getitem CHARSET x) as [c| |] eqn:Hc; try discriminate.
    cbn [bind] in H. destruct (mapM _ l) as [s'| |]; try discriminate.
    cbn [bind] in H. injection H as <-.
    destruct (IH s' eq_refl) as [Hl ->]. split.
    + constructor; [|assumption].
      unfold py_getitem in Hc. change (len CHARSET) with 32 in Hc.
      destruct (x <? 0) eqn:Hneg; destruct ((0 <=? _) && _) eqn:R;
        try discriminate; apply andb_true_iff in R; lia.
    + cbn [map]. f_equal. unfold symbol_char, py_index. now rewrite Hc.
Qed.

Lemma values_nonneg (hrp chars : pystr) :
  forallb (fun x => py_in x CHARSET) chars = true ->
  Forall (fun x => 0 <= x) (bech32x_hrp_expand hrp ++ map (py_find CHARSET) chars).
Proof.
  intros Hin. unfold bech32x_hrp_expand. repeat (apply Forall_app; split).
  - apply Forall_map, Forall_forall. intros x _. apply Z.shiftr_nonneg. unfold ord. lia.
  - constructor; [lia | constructor].
  - apply Forall_map, Forall_forall. intros x _. apply Z.land_nonneg. right. lia.
  - apply Forall_map, Forall_forall. intros x Hx.
    rewrite forallb_forall in Hin. destruct (CHARSET_find x (Hin x Hx)). lia.
Qed.



(** The magnitudes themselves need not be symbols.  The string below is
    well formed; its first thirteen syndromes are those of a single error
    of magnitude 69 at position 3 from the end, so the systems for seven
    down to two errors have no solution and the one for a single error
    has: one root, found at position 3.  The symbol there becomes
    [7 xor 69 = 66], and the lookup [CHARSET[66]] raises [IndexError]
    instead of returning. *)
Lemma base32x_correct_raises_IndexError :
  let bech := str "tx17smht55nzd32r6r570t66sa84z4" in
  let chars := str "7smht55nzd32r6r570t66sa84z4" in
  let values := bech32x_hrp_expand (str "tx") ++ map (py_find CHARSET) chars in
  let syn := syndrome (residue_digits values) in
  structure bech = Some (str "tx", chars)
  /\ (forall t, In t [7; 6; 5; 4; 3; 2] -> solve_matrix syn t = None)
  /\ bech32x_solver syn (len chars) 1 = Some [(3, 69)]
  /\ py_getitem values (-4) = Return 7
  /\ apply_corrections values [(3, 69)] = Return (list_update values 28 66)
  /\ py_getitem CHARSET 66 = Raise IndexError
  /\ base32x_correct (str "*") bech = Raise IndexError.
Proof.
  cbv zeta. split; [vm_compute; reflexivity|]. split.
  { intros t H. repeat (destruct H as [<-|H]; [vm_compute; reflexivity|]). destruct H. }
  repeat split; vm_compute; reflexivity.
Qed.

(** ** One changed character *)

(** Two symbol sequences that differ in one symbol have different
    polymods. *)
Lemma polymod_single_change (pre post : list Z) (d d' : Z) :
  0 <= d < 32 -> 0 <= d' < 32 -> d <> d' ->
  bech32x_polymod (pre ++ d :: post) <> bech32x_polymod (pre ++ d' :: post).
Proof.
  intros Hd Hd' Hne. unfold bech32x_polymod. rewrite !fold_left_app.
  cbn [fold_left]. set (s := fold_left polymod_step pre 1).
  replace (polymod_step s d') with (Z.lxor (polymod_step s d) (Z.lxor d d'))
    by (rewrite !polymod_step_value; lxor_ring).
  rewrite fold_polymod_step_lxor.
  set (a := fold_left polymod_step post (polymod_step s d)).
  set (b := Nat.iter (length post) advance (Z.lxor d d')).
  intros E.
  assert (Hb : b = 0).
  { replace b with (Z.lxor a (Z.lxor a b)) by lxor_ring.
    rewrite <- E. apply Z.lxor_nilpotent. }
  revert Hb. apply iter_advance_nonzero.
  - assert (0 <= Z.lxor d d' < 2 ^ 5) by (apply lxor_below; change (2 ^ 5) with 32; lia).
    change (2 ^ 5) with 32 in *. lia.
  - intros Hz. apply Z.lxor_eq in Hz. contradiction.
Qed.


Lemma lower_length (a : pystr) : len (lower a) = len a.
Proof. unfold len, lower. now rewrite length_map. Qed.




(** * Further properties of the code *)

(** ** The checksum codec *)

Lemma hrp_expand_code_points (hrp : pystr) :
  Forall (fun x => ord x <= 1114111) hrp ->
  Forall (fun v => 0 <= v < 2 ^ 135) (bech32x_hrp_expand hrp).
Proof.
  intros H. unfold bech32x_hrp_expand. apply Forall_app. split; [|constructor; [lia|]].
  - apply Forall_map. eapply Forall_impl; [|exact H]. cbv beta. intros x Hx.
    rewrite Z.shiftr_div_pow2 by lia. unfold ord in *. split.
    + apply Z.div_pos; lia.
    + apply Z.div_lt_upper_bound; lia.
  - apply Forall_map. apply Forall_forall. intros x _.
    change 31 with (Z.ones 5). rewrite Z.land_ones by lia.
    pose proof (Z.mod_pos_bound (ord x) (2 ^ 5) ltac:(lia)).
    change (2 ^ 5) with 32 in *. lia.
Qed.

(** X1: for every HRP (of Unicode code points, in either case) and all data
    symbols in [0,31], the checksum that [bech32x_create_checksum] returns
    makes [bech32x_verify_checksum] accept the data followed by it. *)
Theorem bech32x_verify_create_checksum (hrp : pystr) (data : list Z) :
  Forall (fun x => ord x <= 1114111) hrp ->
  Forall (fun d => 0 <= d < 32) data ->
  exists checksum,
    bech32x_create_checksum hrp (PList data) = Return checksum
    /\ bech32x_verify_checksum hrp (data ++ checksum) = true.
Proof.
  intros Hh Hd. rewrite create_checksum_list. eexists. split; [reflexivity|].
  unfold bech32x_verify_checksum. rewrite !app_assoc.
  rewrite polymod_with_checksum; [reflexivity|].
  apply Forall_app. split; [now apply hrp_expand_code_points | now apply symbols_below].
Qed.

Lemma bech32x_verify_create_checksum_witness :
  exists checksum,
    bech32x_create_checksum (str "TX") (PList [1; 2; 3]) = Return checksum
    /\ bech32x_verify_checksum (str "TX") ([1; 2; 3] ++ checksum) = true.
Proof.
  apply (bech32x_verify_create_checksum (str "TX") [1; 2; 3]).
  - repeat constructor; vm_compute; discriminate.
  - repeat constructor; vm_compute; discriminate.
Defined.

(** X2: the register of [bech32x_polymod] never outgrows 135 bits: on
    non-negative values below [2 ^ 135] (every symbol and every expanded
    HRP is) the result is in [0, 2 ^ 135). *)
Theorem bech32x_polymod_135_bits (values : list Z) :
  Forall (fun v => 0 <= v < 2 ^ 135) values ->
  0 <= bech32x_polymod values < 2 ^ 135.
Proof. apply bech32x_polymod_below. Qed.

Lemma bech32x_polymod_135_bits_witness :
  0 <= bech32x_polymod [3; 3; 0; 20; 24; 31; 31] < 2 ^ 135.
Proof.
  apply (bech32x_polymod_135_bits [3; 3; 0; 20; 24; 31; 31]).
  repeat constructor; vm_compute; discriminate.
Defined.

(** X3: [bech32x_verify_checksum] detects every change of one symbol: if it
    accepts a sequence, it rejects the sequence with one symbol replaced by
    a different one. *)
Theorem bech32x_verify_checksum_single_symbol
  (hrp : pystr) (pre post : list Z) (d d' : Z) :
  0 <= d < 32 -> 0 <= d' < 32 -> d <> d' ->
  bech32x_verify_checksum hrp (pre ++ d :: post) = true ->
  bech32x_verify_checksum hrp (pre ++ d' :: post) = false.
Proof.
  intros Hd Hd' Hne Hv. unfold bech32x_verify_checksum in *.
  apply Z.eqb_eq in Hv. rewrite app_assoc in Hv |- *.
  pose proof (polymod_single_change (bech32x_hrp_expand hrp ++ pre) post d d' Hd Hd' Hne).
  lia.
Qed.

Lemma bech32x_verify_checksum_single_symbol_witness :
  bech32x_verify_checksum (str "tx")
    ([6; 11; 26; 27; 25; 12; 8; 13; 17; 10; 12; 27; 3; 14; 1; 11; 29; 13; 27; 2; 17; 7;
      18; 1; 4; 24] ++ 7 :: []) = false.
Proof.
  apply (bech32x_verify_checksum_single_symbol (str "tx")
           [6; 11; 26; 27; 25; 12; 8; 13; 17; 10; 12; 27; 3; 14; 1; 11; 29; 13; 27; 2;
            17; 7; 18; 1; 4; 24] [] 6 7).
  - lia.
  - lia.
  - discriminate.
  - vm_compute. reflexivity.
Defined.

Lemma app_inj_length {A : Type} (a a' b b' : list A) :
  length a = length a' -> a ++ b = a' ++ b' -> a = a' /\ b = b'.
Proof.
  revert a'. induction a as [|x a IH]; intros [|x' a'] Hl H; try discriminate.
  - split; [reflexivity | exact H].
  - cbn in Hl, H. injection H as -> H. injection Hl as Hl.
    destruct (IH a' Hl H) as [-> ->]. split; reflexivity.
Qed.

Lemma ord_halves (x : N) : ord x = 32 * Z.shiftr (ord x) 5 + Z.land (ord x) 31.
Proof.
  rewrite Z.shiftr_div_pow2 by lia. change 31 with (Z.ones 5).
  rewrite Z.land_ones by lia. change (2 ^ 5) with 32.
  apply Z.div_mod. lia.
Qed.

Lemma bech32x_hrp_expand_length (hrp : pystr) :
  len (bech32x_hrp_expand hrp) = 2 * len hrp + 1.
Proof.
  unfold bech32x_hrp_expand, len. rewrite !length_app, !length_map. cbn [length]. lia.
Qed.

(** X4: [bech32x_hrp_expand] loses nothing of the prefix: two prefixes
    with the same expansion are the same prefix. *)
Theorem bech32x_hrp_expand_injective (a b : pystr) :
  bech32x_hrp_expand a = bech32x_hrp_expand b -> a = b.
Proof.
  intros H.
  assert (Hl : length a = length b).
  { apply (f_equal len) in H. rewrite !bech32x_hrp_expand_length in H.
    unfold len in H. lia. }
  unfold bech32x_hrp_expand in H.
  apply app_inj_length in H; [|now rewrite !length_map].
  destruct H as [Hhi Hlo]. injection Hlo as Hlo.
  revert b Hl Hhi Hlo. induction a as [|x a IH]; intros [|y b] Hl Hhi Hlo;
    try discriminate; [reflexivity|].
  cbn [map] in Hhi, Hlo. injection Hhi as Hx Hhi. injection Hlo as Hy Hlo.
  injection Hl as Hl. f_equal; [|now apply IH].
  pose proof (ord_halves x) as Ex. pose proof (ord_halves y) as Ey.
  rewrite Hx, Hy in Ex. unfold ord in *. lia.
Qed.

Lemma bech32x_hrp_expand_injective_witness : str "tx" = [116; 120]%N.
Proof.
  apply (bech32x_hrp_expand_injective (str "tx") [116; 120]%N).
  reflexivity.
Defined.

(** ** [bech32x_encode] *)

Lemma py_getitem_raises {A : Type} (l : list A) (i : Z) (e : pyexn) :
  py_getitem l i = Raise e -> e = IndexError.
Proof.
  unfold py_getitem. destruct (_ && _); [destruct (nth_error _ _)|]; congruence.
Qed.

Lemma py_getitem_terminates {A : Type} (l : list A) (i : Z) : py_getitem l i <> Diverges.
Proof.
  unfold py_getitem. destruct (_ && _); [destruct (nth_error _ _)|]; discriminate.
Qed.

(** A sequence of lookups either gives all its elements or raises
    [IndexError]. *)
Lemma mapM_getitem_outcome {A : Type} (l : list A) (xs : list Z) :
  (exists ys, mapM (py_getitem l) xs = Return ys)
  \/ mapM (py_getitem l) xs = Raise IndexError.
Proof.
  induction xs as [|x xs IH]; [left; now exists []|]. cbn [mapM].
  destruct (py_getitem l x) as [y|e|] eqn:E.
  - cbn [bind]. destruct IH as [[ys ->]| ->]; cbn [bind]; [left; eauto | now right].
  - right. apply py_getitem_raises in E. now subst e.
  - now apply py_getitem_terminates in E.
Qed.



(** X6: a data value above 31 or below -32 makes [bech32x_encode] raise
    [IndexError] (the lookup [CHARSET[d]]); it has no check of its own. *)
Theorem bech32x_encode_raises_IndexError (hrp : pystr) (data : list Z) :
  Exists (fun d => d < -32 \/ 31 < d) data ->
  bech32x_encode hrp (PList data) = Raise IndexError.
Proof.
  intros Hex. unfold bech32x_encode. rewrite create_checksum_list. cbn [bind py_add].
  set (combined := data ++ _).
  destruct (mapM_getitem_outcome CHARSET combined) as [[ys E]| ->]; [|reflexivity].
  exfalso. apply mapM_getitem_CHARSET in E. destruct E as [Hr _].
  apply Exists_exists in Hex. destruct Hex as [d [Hin Hd]].
  rewrite Forall_forall in Hr. specialize (Hr d). unfold combined in Hr.
  rewrite in_app_iff in Hr. specialize (Hr (or_introl Hin)). lia.
Qed.

Lemma bech32x_encode_raises_IndexError_witness :
  bech32x_encode (str "tx") (PList [0; 32]) = Raise IndexError.
Proof.
  apply (bech32x_encode_raises_IndexError (str "tx") [0; 32]).
  right. left. right. reflexivity.
Defined.

(** ** The strict decoder and the structural checks *)

Lemma lower_char_idempotent (x : N) : lower_char (lower_char x) = lower_char x.
Proof.
  unfold lower_char.
  destruct (N.leb 65 x && N.leb x 90)%bool eqn:E; [|now rewrite E].
  replace (N.leb 65 (x + 32) && N.leb (x + 32) 90)%bool with false; [reflexivity|].
  symmetry. apply andb_false_iff. right. apply N.leb_gt.
  apply andb_true_iff in E. destruct E as [E _]. apply N.leb_le in E. lia.
Qed.



Lemma lower_idempotent (s : pystr) : lower (lower s) = lower s.
Proof.
  unfold lower. rewrite map_map. apply map_ext. apply lower_char_idempotent.
Qed.



Lemma out_of_range_lower (x : N) : out_of_range (lower_char x) = out_of_range x.
Proof.
  unfold out_of_range, lower_char, ord.
  destruct (N.leb 65 x && N.leb x 90)%bool eqn:E; [|reflexivity].
  apply andb_true_iff in E. destruct E as [E1 E2]. apply N.leb_le in E1, E2.
  rewrite !Z.gtb_ltb, !(proj2 (Z.ltb_ge _ _)) by lia. reflexivity.
Qed.

Lemma existsb_pointwise {A : Type} (f g : A -> bool) (l : list A) :
  (forall x, f x = g x) -> existsb f l = existsb g l.
Proof.
  intros H. induction l as [|x l IH]; [reflexivity|]. cbn. now rewrite H, IH.
Qed.

Lemma existsb_map {A B : Type} (f : B -> bool) (g : A -> B) (l : list A) :
  existsb f (map g l) = existsb (fun x => f (g x)) l.
Proof. induction l as [|x l IH]; [reflexivity|]. cbn. now rewrite IH. Qed.

(** The structural checks see a string of one case as its lower-case
    form. *)
Lemma structure_one_case (bech : pystr) :
  lower bech = bech \/ upper bech = bech ->
  structure bech = structure (lower bech).
Proof.
  intros H.
  assert (E : existsb out_of_range (lower bech) = existsb out_of_range bech).
  { unfold lower. rewrite existsb_map. apply existsb_pointwise. apply out_of_range_lower. }
  unfold structure. fold out_of_range.
  rewrite lower_idempotent, pystr_eqb_refl, E. cbn [negb andb]. rewrite orb_false_r.
  replace (negb (pystr_eqb (lower bech) bech) && negb (pystr_eqb (upper bech) bech))
    with false.
  2:{ destruct H as [-> | ->]; rewrite pystr_eqb_refl; cbn [negb andb];
        [reflexivity | now rewrite andb_false_r]. }
  now rewrite orb_false_r.
Qed.



Lemma Forall_in_range_lower (s : pystr) :
  existsb out_of_range s = false -> Forall (fun x => 33 <= ord x <= 126) (lower s).
Proof.
  intros H. unfold lower. apply Forall_map. apply Forall_forall. intros x Hx.
  assert (E : out_of_range (lower_char x) = false).
  { rewrite out_of_range_lower. apply not_true_is_false. intros F.
    assert (existsb out_of_range s = true) by (apply existsb_exists; eauto).
    congruence. }
  unfold out_of_range in E. lia.
Qed.

(** What a string that passed the structural checks gives: a prefix in the
    printable range, nowhere upper case. *)
Lemma structure_prefix (bech hrp chars : pystr) :
  structure bech = Some (hrp, chars) ->
  Forall (fun x => 33 <= ord x <= 126) hrp /\ lower hrp = hrp.
Proof.
  intros Hs. destruct (structure_spec _ _ _ Hs) as [Hl _].
  unfold structure in Hs. fold out_of_range in Hs.
  destruct (existsb out_of_range bech) eqn:Hr; [discriminate|].
  apply Forall_in_range_lower in Hr. rewrite Hl in Hr.
  apply Forall_app in Hr. split; [tauto|].
  pose proof (lower_idempotent bech) as Hi. rewrite Hl in Hi.
  unfold lower in Hi. rewrite map_app in Hi.
  apply app_inj_length in Hi; [tauto | apply length_map].
Qed.

Lemma firstn_Forall {A : Type} (P : A -> Prop) (n : nat) (l : list A) :
  Forall P l -> Forall P (firstn n l).
Proof.
  intros H. rewrite <- (firstn_skipn n l) in H. apply Forall_app in H. tauto.
Qed.

Lemma find_symbols (chars : pystr) :
  forallb (fun x => py_in x CHARSET) chars = true ->
  Forall (fun d => 0 <= d < 32) (map (py_find CHARSET) chars).
Proof.
  intros H. apply Forall_map. apply Forall_forall. intros x Hx.
  rewrite forallb_forall in H. now destruct (CHARSET_find x (H x Hx)).
Qed.

(** X8: whatever [bech32x_decode] returns is well formed: the prefix is not
    empty, printable and free of upper-case letters, the data are symbols
    in [0,31], and prefix and data together stay below the length limit. *)
Theorem bech32x_decode_well_formed (bech hrp : pystr) (data : list Z) :
  bech32x_decode bech = Some (hrp, data) ->
  1 <= len hrp
  /\ Forall (fun x => 33 <= ord x <= 126) hrp
  /\ lower hrp = hrp
  /\ Forall (fun d => 0 <= d < 32) data
  /\ len hrp + 1 + len data <= 1023.
Proof.
  intros H. rewrite bech32x_decode_structure in H.
  destruct (structure bech) as [[h chars]|] eqn:Hs; [|discriminate].
  cbv zeta in H. destruct (bech32x_verify_checksum _ _); [|discriminate].
  injection H as -> <-.
  destruct (structure_spec _ _ _ Hs) as [_ [Hin [H1 [_ Hmax]]]].
  destruct (structure_prefix _ _ _ Hs) as [Hr Hlow].
  change (-27) with (Z.opp 27). rewrite py_slice_to_neg by lia.
  repeat split; try assumption; try lia.
  - apply firstn_Forall. now apply find_symbols.
  - unfold len in *. rewrite length_firstn, length_map. lia.
Qed.

Lemma bech32x_decode_well_formed_witness :
  1 <= len (str "tx")
  /\ Forall (fun x => 33 <= ord x <= 126) (str "tx")
  /\ lower (str "tx") = str "tx"
  /\ Forall (fun d => 0 <= d < 32) [31; 0; 7]
  /\ len (str "tx") + 1 + len [31; 0; 7] <= 1023.
Proof.
  apply (bech32x_decode_well_formed (str "TX1LQ8DEVNQ65S2XD45P7XPLTM3SZFU3V")).
  vm_compute. reflexivity.
Defined.

(** The digits of a number spelled by symbols are those symbols. *)
Lemma mask_from_digits (ds : list Z) :
  Forall (fun d => 0 <= d < 32) ds ->
  mask_digits (length ds) (from_digits ds 0) = ds /\ 0 <= from_digits ds 0.
Proof.
  induction ds as [|d ds IH] using rev_ind; intros H; [split; [reflexivity | cbn; lia]|].
  apply Forall_app in H. destruct H as [Hds Hd]. inversion Hd as [|? ? Hd' _]; subst.
  destruct (IH Hds) as [Em Hn].
  rewrite from_digits_snoc, length_app. cbn [length]. rewrite Nat.add_1_r.
  rewrite mask_digits_succ. split; [|lia]. f_equal.
  - rewrite Z.shiftr_div_pow2 by lia. change (2 ^ 5) with 32.
    replace ((32 * from_digits ds 0 + d) / 32) with (from_digits ds 0); [exact Em|].
    apply Z.div_unique with d; lia.
  - f_equal. change 31 with (Z.ones 5). rewrite Z.land_ones by lia.
    change (2 ^ 5) with 32. symmetry. apply Z.mod_unique with (from_digits ds 0); lia.
Qed.

(** The checksum is the only 27 symbols that make the register end at 1. *)
Lemma checksum_unique (values ds : list Z) :
  Forall (fun v => 0 <= v < 2 ^ 135) values ->
  Forall (fun d => 0 <= d < 32) ds ->
  length ds = 27%nat ->
  bech32x_polymod (values ++ ds) = 1 ->
  ds = mask_digits 27 (Z.lxor (bech32x_polymod (values ++ repeat 0 27)) 1).
Proof.
  intros Hv Hds Hl H. unfold bech32x_polymod in H |- *. rewrite fold_left_app in H |- *.
  set (s := fold_left polymod_step values 1) in *.
  rewrite fold_polymod_step_zeros.
  rewrite <- (Z.lxor_0_r s) in H at 1.
  rewrite fold_polymod_step_digits in H; try assumption; try lia.
  2:{ unfold len. rewrite Hl. vm_compute. discriminate. }
  rewrite Hl in H.
  destruct (mask_from_digits ds Hds) as [Em _]. rewrite Hl in Em.
  rewrite <- Em at 1. f_equal.
  rewrite <- H. lxor_ring.
Qed.

Lemma symbol_chars_find (chars : pystr) :
  forallb (fun x => py_in x CHARSET) chars = true ->
  map symbol_char (map (py_find CHARSET) chars) = chars.
Proof.
  intros H. rewrite map_map. rewrite <- (map_id chars) at 2.
  apply map_ext_in. intros x Hx. rewrite forallb_forall in H.
  now destruct (CHARSET_char x (H x Hx)) as [_ [_ [_ <-]]].
Qed.

(** What [bech32x_decode] accepts is spelled by [bech32x_encode], but for
    the case. *)
Lemma bech32x_encode_decoded (bech hrp : pystr) (data : list Z) :
  bech32x_decode bech = Some (hrp, data) ->
  len hrp + 28 <= len bech ->
  bech32x_encode hrp (PList data) = Return (lower bech).
Proof.
  intros H Hlen. rewrite bech32x_decode_structure in H.
  destruct (structure bech) as [[h chars]|] eqn:Hs; [|discriminate].
  cbv zeta in H. destruct (bech32x_verify_checksum _ _) eqn:Hv; [|discriminate].
  injection H as -> <-.
  destruct (structure_spec _ _ _ Hs) as [Hl [Hin _]].
  destruct (structure_prefix _ _ _ Hs) as [Hr _].
  assert (Hc : 27 <= len chars).
  { rewrite <- (lower_length bech), Hl, len_app, len_app in Hlen.
    change (len (str "1")) with 1 in Hlen. lia. }
  pose proof (find_symbols chars Hin) as Hsym.
  set (syms := map (py_find CHARSET) chars) in *.
  assert (Hsl : length syms = length chars) by apply length_map.
  change (-27) with (Z.opp 27). rewrite py_slice_to_neg by lia.
  set (n := (length syms - Z.to_nat 27)%nat).
  assert (Ecs : skipn n syms
                = mask_digits 27
                    (Z.lxor (bech32x_polymod
                               (bech32x_hrp_expand hrp ++ firstn n syms ++ repeat 0 27)) 1)).
  { unfold bech32x_verify_checksum in Hv. apply Z.eqb_eq in Hv.
    rewrite <- (firstn_skipn n syms) in Hv. rewrite app_assoc in Hv.
    rewrite (app_assoc (bech32x_hrp_expand hrp)).
    apply checksum_unique; try assumption.
    - apply Forall_app. split.
      + apply hrp_expand_below. eapply Forall_impl; [|exact Hr]. cbv beta. lia.
      + apply symbols_below. now apply firstn_Forall.
    - rewrite <- (firstn_skipn n syms) in Hsym. apply Forall_app in Hsym. tauto.
    - rewrite length_skipn. unfold n, len in *. lia. }
  rewrite encode_list by (now apply firstn_Forall).
  rewrite <- Ecs, firstn_skipn. unfold syms.
  now rewrite symbol_chars_find, Hl.
Qed.

(** X9: decoding and encoding again gives the string back in lower case:
    when [bech32x_decode] accepts a string with at least 27 characters after
    the separator, [bech32x_encode] of the prefix and data it returned is
    the lower-cased string. *)
Theorem bech32x_encode_decode (bech hrp : pystr) (data : list Z) :
  bech32x_decode bech = Some (hrp, data) ->
  len hrp + 28 <= len bech ->
  bech32x_encode hrp (PList data) = Return (lower bech).
Proof.
  exact (bech32x_encode_decoded bech hrp data).
Qed.

Lemma bech32x_encode_decode_witness :
  bech32x_encode (str "tx") (PList [31; 0; 7])
  = Return (lower (str "TX1LQ8DEVNQ65S2XD45P7XPLTM3SZFU3V")).
Proof.
  apply (bech32x_encode_decode (str "TX1LQ8DEVNQ65S2XD45P7XPLTM3SZFU3V")).
  - vm_compute. reflexivity.
  - vm_compute. discriminate.
Defined.

(** ** Rejection *)

Lemma lower_char_separator (x : N) : N.eqb 49 (lower_char x) = N.eqb 49 x.
Proof.
  unfold lower_char. destruct (N.leb 65 x && N.leb x 90)%bool eqn:E; [|reflexivity].
  apply andb_true_iff in E. destruct E as [E1 _]. apply N.leb_le in E1.
  rewrite !(proj2 (N.eqb_neq _ _)) by lia. reflexivity.
Qed.

Lemma py_in_lower_separator (s : pystr) : py_in 49%N (lower s) = py_in 49%N s.
Proof.
  unfold py_in, lower. rewrite existsb_map. apply existsb_pointwise.
  apply lower_char_separator.
Qed.

(** A string with a character out of range, too long, or without separator
    after its first character fails the structural checks. *)
Lemma structure_malformed (bech : pystr) :
  Exists (fun x => ord x < 33 \/ 126 < ord x) bech
  \/ 1023 < len bech
  \/ py_in 49%N (skipn 1 bech) = false ->
  structure bech = None.
Proof.
  intros H. unfold structure. fold out_of_range.
  destruct (existsb out_of_range bech) eqn:Hr; [reflexivity|]. cbn [orb].
  destruct (negb _ && negb _); [reflexivity|]. cbv zeta.
  destruct H as [H|[H|H]].
  - exfalso. apply Exists_exists in H. destruct H as [x [Hx Hb]].
    assert (existsb out_of_range bech = true); [|congruence].
    apply existsb_exists. exists x. split; [assumption|]. unfold out_of_range. lia.
  - rewrite lower_length.
    replace (len bech >? 1023) with true by lia. now rewrite orb_true_r.
  - replace (py_rfind (lower bech) 49%N <? 1) with true; [reflexivity|].
    symmetry. apply Z.ltb_lt.
    destruct bech as [|x s]; [cbn; lia|].
    cbn [skipn] in H. unfold lower. cbn [map]. fold (lower s).
    unfold py_rfind. cbn [rfind_from].
    rewrite rfind_from_absent by (now rewrite py_in_lower_separator).
    destruct (N.eqb _ _); lia.
Qed.

(** X10: both decoders reject, with their tuple of [None]s, every string
    with a character outside [33,126], every string longer than 1023
    characters, and every string without a separator after its first
    character (so also the empty prefix). *)
Theorem decoders_reject_malformed (expected_hrp bech : pystr) :
  Exists (fun x => ord x < 33 \/ 126 < ord x) bech
  \/ 1023 < len bech
  \/ py_in 49%N (skipn 1 bech) = false ->
  bech32x_decode bech = None
  /\ base32x_correct expected_hrp bech = Return CorrectNoneTuple.
Proof.
  intros H. apply structure_malformed in H. split.
  - now rewrite bech32x_decode_structure, H.
  - now rewrite base32x_correct_structure, H.
Qed.

Lemma decoders_reject_malformed_witness :
  bech32x_decode (str "1qqqqqqqqqqqqqqqqqqqqqqqqqqqqqq") = None
  /\ base32x_correct (str "*") (str "1qqqqqqqqqqqqqqqqqqqqqqqqqqqqqq") = Return CorrectNoneTuple.
Proof.
  apply (decoders_reject_malformed (str "*") (str "1qqqqqqqqqqqqqqqqqqqqqqqqqqqqqq")).
  right. right. reflexivity.
Defined.

(** ** [convertbits]: regrouping a stream of bits *)

Lemma shiftl_1_ones (n : Z) : 0 <= n -> Z.shiftl 1 n - 1 = Z.ones n.
Proof.
  intros H. rewrite Z.ones_equiv, Z.shiftl_mul_pow2 by assumption. lia.
Qed.

Lemma base_value_snoc (w : Z) (ds : list Z) (d : Z) :
  base_value w (ds ++ [d]) = base_value w ds * 2 ^ w + d.
Proof. unfold base_value. now rewrite fold_left_app. Qed.

Lemma fold_base_value (w : Z) (ds : list Z) (a : Z) :
  0 <= w ->
  fold_left (fun a d => a * 2 ^ w + d) ds a = a * 2 ^ (w * len ds) + base_value w ds.
Proof.
  intros Hw. unfold base_value. revert a.
  induction ds as [|d ds IH]; intros a.
  - cbn. change (len []) with 0. rewrite Z.mul_0_r. cbn. lia.
  - cbn [fold_left]. rewrite IH, (IH (0 * 2 ^ w + d)). rewrite len_cons.
    pose proof (len_nonneg ds).
    replace (w * (len ds + 1)) with (w + w * len ds) by lia.
    rewrite Z.pow_add_r by nia. ring.
Qed.

Lemma base_value_cons (w : Z) (d : Z) (ds : list Z) :
  0 <= w ->
  base_value w (d :: ds) = d * 2 ^ (w * len ds) + base_value w ds.
Proof.
  intros Hw. unfold base_value at 1. cbn [fold_left].
  rewrite fold_base_value by assumption. ring.
Qed.

Section Regroup.

(** The widths: [f] bits a group come in, [t] bits a group go out. *)
Variables f t : Z.
Hypothesis f_positive : 1 <= f.
Hypothesis t_positive : 1 <= t.

Let maxv : Z := Z.shiftl 1 t - 1.
Let max_acc : Z := Z.shiftl 1 (f + t - 1) - 1.

(** One turn of the [while] loop keeps the bits not yet put out. *)
Lemma emit_value (acc bits : Z) :
  0 <= acc -> t <= bits ->
  let d := Z.land (Z.shiftr acc (bits - t)) maxv in
  0 <= d < 2 ^ t
  /\ forall r, (r * 2 ^ t + d) * 2 ^ (bits - t) + acc mod 2 ^ (bits - t)
               = r * 2 ^ bits + acc mod 2 ^ bits.
Proof.
  intros Ha Hb d. unfold d, maxv.
  rewrite shiftl_1_ones, Z.land_ones, Z.shiftr_div_pow2 by lia.
  assert (Hp : 0 < 2 ^ t) by (apply Z.pow_pos_nonneg; lia).
  assert (Hq : 0 < 2 ^ (bits - t)) by (apply Z.pow_pos_nonneg; lia).
  split; [apply Z.mod_pos_bound; assumption|].
  intros r.
  assert (Hpow : 2 ^ bits = 2 ^ (bits - t) * 2 ^ t).
  { rewrite <- Z.pow_add_r by lia. f_equal. lia. }
  rewrite Hpow.
  rewrite (Z.rem_mul_r acc (2 ^ (bits - t)) (2 ^ t)) by lia. ring.
Qed.

Lemma convert_emit_spec (fuel : nat) (acc bits : Z) (ret : list Z) :
  0 <= acc -> 0 <= bits <= Z.of_nat fuel ->
  Forall (fun d => 0 <= d < 2 ^ t) ret ->
  exists bits' ret',
    convert_emit fuel acc bits t maxv ret = Some (bits', ret')
    /\ 0 <= bits' < t
    /\ Forall (fun d => 0 <= d < 2 ^ t) ret'
    /\ base_value t ret' * 2 ^ bits' + acc mod 2 ^ bits'
       = base_value t ret * 2 ^ bits + acc mod 2 ^ bits
    /\ t * len ret' + bits' = t * len ret + bits.
Proof.
  intros Ha. revert bits ret.
  induction fuel as [|fuel IH]; intros bits ret Hb Hret; cbn [convert_emit].
  - replace (bits >=? t) with false by lia.
    exists bits, ret. repeat split; try assumption; lia.
  - destruct (bits >=? t) eqn:E.
    + destruct (emit_value acc bits Ha ltac:(lia)) as [Hd Hv].
      destruct (IH (bits - t)
                  (ret ++ [Z.land (Z.shiftr acc (bits - t)) maxv]) ltac:(lia))
        as [bits' [ret' [E' [Hb' [Hr' [Hval Hlen]]]]]].
      { apply Forall_app. split; [assumption | now constructor]. }
      exists bits', ret'. split; [exact E'|]. split; [assumption|].
      split; [assumption|]. split.
      * rewrite Hval, base_value_snoc. apply Hv.
      * rewrite Hlen, len_app. change (len [_]) with 1. lia.
    + exists bits, ret. repeat split; try assumption; lia.
Qed.

(** Taking a group in. *)
Lemma take_value (acc bits v : Z) :
  0 <= acc -> 0 <= bits < t -> 0 <= v < 2 ^ f ->
  let acc' := Z.land (Z.lor (Z.shiftl acc f) v) max_acc in
  0 <= acc' /\ acc' mod 2 ^ (bits + f) = (acc mod 2 ^ bits) * 2 ^ f + v.
Proof.
  intros Ha Hb Hv acc'. unfold acc', max_acc.
  rewrite shiftl_1_ones, Z.land_ones by lia.
  assert (Hf : 0 < 2 ^ f) by (apply Z.pow_pos_nonneg; lia).
  assert (Hbp : 0 < 2 ^ bits) by (apply Z.pow_pos_nonneg; lia).
  assert (Hor : Z.lor (Z.shiftl acc f) v = acc * 2 ^ f + v).
  { rewrite <- Z.shiftl_mul_pow2 by lia.
    pose proof (Z.add_lor_land (Z.shiftl acc f) v) as Hal.
    assert (Hz : Z.land (Z.shiftl acc f) v = 0); [|lia].
    apply Z.bits_inj'. intros n Hn. rewrite Z.land_spec, Z.bits_0.
    destruct (Z.lt_ge_cases n f).
    - now rewrite Z.shiftl_spec_low.
    - rewrite (bits_above_pow2 f v n) by (assumption || lia). apply andb_false_r. }
  rewrite Hor. split.
  - apply Z.mod_pos_bound. apply Z.pow_pos_nonneg; lia.
  - replace ((acc * 2 ^ f + v) mod 2 ^ (f + t - 1) mod 2 ^ (bits + f))
      with ((acc * 2 ^ f + v) mod 2 ^ (bits + f)).
    2:{ apply Z.bits_inj'. intros n Hn. destruct (Z.lt_ge_cases n (bits + f)).
        - now rewrite !Z.mod_pow2_bits_low by lia.
        - now rewrite !Z.mod_pow2_bits_high by lia. }
    symmetry. apply Z.mod_unique with (acc / 2 ^ bits).
    + left. pose proof (Z.mod_pos_bound acc (2 ^ bits) Hbp).
      rewrite Z.pow_add_r by lia. nia.
    + rewrite Z.pow_add_r by lia.
      pose proof (Z.div_mod acc (2 ^ bits) ltac:(lia)). nia.
Qed.

Lemma convert_loop_spec (data : list Z) (acc bits : Z) (ret : list Z) :
  Forall (fun v => 0 <= v < 2 ^ f) data ->
  0 <= acc -> 0 <= bits < t ->
  Forall (fun d => 0 <= d < 2 ^ t) ret ->
  exists acc' bits' ret',
    convert_loop data f t maxv max_acc acc bits ret = Return (Some (acc', bits', ret'))
    /\ 0 <= acc' /\ 0 <= bits' < t
    /\ Forall (fun d => 0 <= d < 2 ^ t) ret'
    /\ base_value t ret' * 2 ^ bits' + acc' mod 2 ^ bits'
       = (base_value t ret * 2 ^ bits + acc mod 2 ^ bits) * 2 ^ (f * len data)
         + base_value f data
    /\ t * len ret' + bits' = t * len ret + bits + f * len data.
Proof.
  revert acc bits ret.
  induction data as [|v data IH]; intros acc bits ret Hdata Ha Hb Hret.
  - exists acc, bits, ret. cbn [convert_loop]. change (len []) with 0.
    rewrite Z.mul_0_r. cbn. repeat split; try assumption; lia.
  - inversion Hdata as [|? ? Hv Hdata']; subst. cbn [convert_loop].
    replace ((v <? 0) || negb (Z.shiftr v f =? 0)) with false.
    2:{ rewrite Z.shiftr_div_pow2, Z.div_small by lia.
        replace (v <? 0) with false by lia. reflexivity. }
    destruct (take_value acc bits v Ha Hb Hv) as [Ha1 Hm1].
    set (acc1 := Z.land (Z.lor (Z.shiftl acc f) v) max_acc) in *.
    destruct (convert_emit_spec (Z.to_nat (bits + f)) acc1 (bits + f) ret Ha1
                ltac:(lia) Hret)
      as [bits2 [ret2 [E2 [Hb2 [Hr2 [Hval2 Hlen2]]]]]].
    rewrite E2.
    destruct (IH acc1 bits2 ret2 Hdata' Ha1 Hb2 Hr2)
      as [acc3 [bits3 [ret3 [E3 [Ha3 [Hb3 [Hr3 [Hval3 Hlen3]]]]]]]].
    exists acc3, bits3, ret3. split; [exact E3|].
    repeat split; try assumption; try lia.
    + rewrite Hval3, Hval2, Hm1, base_value_cons by lia.
      rewrite len_cons. pose proof (len_nonneg data).
      replace (f * (len data + 1)) with (f + f * len data) by lia.
      rewrite !Z.pow_add_r by nia. ring.
    + rewrite len_cons. lia.
Qed.

End Regroup.

Lemma base_value_injective (w : Z) (a b : list Z) :
  0 <= w ->
  length a = length b ->
  Forall (fun d => 0 <= d < 2 ^ w) a ->
  Forall (fun d => 0 <= d < 2 ^ w) b ->
  base_value w a = base_value w b -> a = b.
Proof.
  intros Hw. revert b. induction a as [|x a IH] using rev_ind; intros b Hl Ha Hb H.
  - destruct b; [reflexivity | discriminate].
  - destruct b as [|y b _] using rev_ind.
    + rewrite length_app in Hl. cbn in Hl. lia.
    + rewrite !length_app in Hl. cbn [length] in Hl.
      apply Forall_app in Ha, Hb. destruct Ha as [Ha Hx], Hb as [Hb Hy].
      inversion Hx as [|? ? Hx' _]; subst. inversion Hy as [|? ? Hy' _]; subst.
      rewrite !base_value_snoc in H.
      assert (Hp : 0 < 2 ^ w) by (apply Z.pow_pos_nonneg; lia).
      assert (E : base_value w a = base_value w b /\ x = y).
      { apply (Z.div_mod_unique (2 ^ w)); [left; lia | left; lia | lia]. }
      destruct E as [E ->]. f_equal. apply IH; try assumption. lia.
Qed.

Lemma shifted_low_bits (a b t : Z) :
  0 <= b <= t ->
  Z.land (Z.shiftl a (t - b)) (Z.shiftl 1 t - 1) = (a mod 2 ^ b) * 2 ^ (t - b).
Proof.
  intros H. rewrite shiftl_1_ones by lia. rewrite Z.land_ones by lia.
  rewrite Z.shiftl_mul_pow2 by lia.
  replace (2 ^ t) with (2 ^ b * 2 ^ (t - b))
    by (rewrite <- Z.pow_add_r by lia; f_equal; lia).
  apply Z.mul_mod_distr_r; apply Z.pow_nonzero; lia.
Qed.

(** With padding: the groups that come out spell the stream that went in,
    followed by fewer than [t] zero bits. *)
Lemma convertbits_pad (f t : Z) (data : list Z) :
  1 <= f -> 1 <= t ->
  Forall (fun v => 0 <= v < 2 ^ f) data ->
  exists out pad,
    convertbits data f t true = Return (PList out)
    /\ Forall (fun d => 0 <= d < 2 ^ t) out
    /\ 0 <= pad < t
    /\ t * len out = f * len data + pad
    /\ base_value t out = base_value f data * 2 ^ pad.
Proof.
  intros Hf Ht Hdata. unfold convertbits.
  destruct (convert_loop_spec f t Hf Ht data 0 0 [] Hdata ltac:(lia) ltac:(lia)
              ltac:(constructor))
    as [acc [bits [ret [E [Ha [Hb [Hr [Hval Hlen]]]]]]]].
  rewrite E. cbn [bind].
  change (base_value t []) with 0 in Hval. change (len (@nil Z)) with 0 in Hlen.
  replace (0 * 2 ^ 0 + 0 mod 2 ^ 0) with 0 in Hval by reflexivity.
  rewrite Z.mul_0_l, Z.add_0_l in Hval.
  destruct (bits =? 0) eqn:Eb; cbn [negb].
  - apply Z.eqb_eq in Eb. subst bits. exists ret, 0.
    rewrite Z.pow_0_r, Z.mod_1_r in Hval.
    repeat split; try assumption; lia.
  - exists (ret ++ [Z.land (Z.shiftl acc (t - bits)) (Z.shiftl 1 t - 1)]), (t - bits).
    rewrite shifted_low_bits by lia.
    assert (Hp : 0 < 2 ^ bits) by (apply Z.pow_pos_nonneg; lia).
    assert (Hq : 0 < 2 ^ (t - bits)) by (apply Z.pow_pos_nonneg; lia).
    assert (Hpow : 2 ^ t = 2 ^ bits * 2 ^ (t - bits)).
    { rewrite <- Z.pow_add_r by lia. f_equal. lia. }
    pose proof (Z.mod_pos_bound acc (2 ^ bits) Hp) as Hm.
    split; [reflexivity|]. split; [|split; [lia|split]].
    + apply Forall_app. split; [assumption|]. constructor; [|constructor].
      rewrite Hpow. nia.
    + rewrite len_app. change (len [_]) with 1. lia.
    + rewrite base_value_snoc, <- Hval, Hpow. ring.
Qed.

(** X11: [convertbits(data, 8, 5)] on bytes returns symbols in [0,31], as
    many as it takes to hold the bits: the number of bytes times 8, divided
    by 5 and rounded up. *)
Theorem convertbits_bytes_to_symbols (data : list Z) :
  Forall (fun v => 0 <= v <= 255) data ->
  exists symbols,
    convertbits data 8 5 true = Return (PList symbols)
    /\ Forall (fun d => 0 <= d < 32) symbols
    /\ len symbols = (8 * len data + 4) / 5.
Proof.
  intros H.
  destruct (convertbits_pad 8 5 data ltac:(lia) ltac:(lia)) as [out [pad [E [Ho [Hp [Hl _]]]]]].
  { eapply Forall_impl; [|exact H]. cbv beta. change (2 ^ 8) with 256. lia. }
  exists out. split; [exact E|]. split; [exact Ho|].
  apply Z.div_unique with (4 - pad); lia.
Qed.

Lemma convertbits_bytes_to_symbols_witness :
  exists symbols,
    convertbits [255; 254; 253] 8 5 true = Return (PList symbols)
    /\ Forall (fun d => 0 <= d < 32) symbols
    /\ len symbols = (8 * len [255; 254; 253] + 4) / 5.
Proof.
  apply (convertbits_bytes_to_symbols [255; 254; 253]).
  repeat constructor; vm_compute; discriminate.
Defined.

Lemma convertbits_unpad (data syms : list Z) (pad : Z) :
  Forall (fun v => 0 <= v < 2 ^ 8) data ->
  Forall (fun d => 0 <= d < 2 ^ 5) syms ->
  0 <= pad < 5 ->
  5 * len syms = 8 * len data + pad ->
  base_value 5 syms = base_value 8 data * 2 ^ pad ->
  convertbits syms 5 8 false = Return (PList data).
Proof.
  intros Hdata Hsyms Hpad Hlen Hval. unfold convertbits.
  destruct (convert_loop_spec 5 8 ltac:(lia) ltac:(lia) syms 0 0 [] Hsyms ltac:(lia)
              ltac:(lia) ltac:(constructor))
    as [acc [bits [ret [E [Ha [Hb [Hr [Hv Hl]]]]]]]].
  rewrite E. cbn [bind].
  change (base_value 8 []) with 0 in Hv. change (len (@nil Z)) with 0 in Hl.
  replace (0 * 2 ^ 0 + 0 mod 2 ^ 0) with 0 in Hv by reflexivity.
  rewrite Z.mul_0_l, Z.add_0_l in Hv.
  assert (Eb : bits = pad) by lia. subst bits.
  assert (Hp : 0 < 2 ^ pad) by (apply Z.pow_pos_nonneg; lia).
  pose proof (Z.mod_pos_bound acc (2 ^ pad) Hp) as Hm.
  rewrite Hval in Hv.
  assert (Hz : base_value 8 ret = base_value 8 data /\ acc mod 2 ^ pad = 0).
  { apply (Z.div_mod_unique (2 ^ pad)); [left; lia | left; lia | lia]. }
  destruct Hz as [Hbv Hz].
  rewrite shifted_low_bits by lia. rewrite Hz, Z.mul_0_l.
  replace (pad >=? 5) with false by lia. cbn [orb negb Z.eqb].
  do 2 f_equal. apply (base_value_injective 8); try assumption; try lia.
  unfold len in *. lia.
Qed.

(** X12: bytes regrouped to symbols and back are the same bytes:
    [convertbits(convertbits(data, 8, 5), 5, 8, False) == data] for every list
    of bytes. *)
Theorem convertbits_round_trip (data : list Z) :
  Forall (fun v => 0 <= v <= 255) data ->
  exists symbols,
    convertbits data 8 5 true = Return (PList symbols)
    /\ convertbits symbols 5 8 false = Return (PList data).
Proof.
  intros H.
  assert (Hd : Forall (fun v => 0 <= v < 2 ^ 8) data).
  { eapply Forall_impl; [|exact H]. cbv beta. change (2 ^ 8) with 256. lia. }
  destruct (convertbits_pad 8 5 data ltac:(lia) ltac:(lia) Hd)
    as [out [pad [E [Ho [Hp [Hl Hv]]]]]].
  exists out. split; [exact E|]. now apply (convertbits_unpad data out pad).
Qed.

Lemma convertbits_round_trip_witness :
  exists symbols,
    convertbits [255; 254; 253] 8 5 true = Return (PList symbols)
    /\ convertbits symbols 5 8 false = Return (PList [255; 254; 253]).
Proof.
  apply (convertbits_round_trip [255; 254; 253]).
  repeat constructor; vm_compute; discriminate.
Defined.

(** ** The top-level [encode] and [decode] *)

Lemma len_symbol_chars (ds : list Z) : len (map symbol_char ds) = len ds.
Proof. unfold len. now rewrite length_map. Qed.

(** The string [bech32x_encode] builds from symbols, read back by
    [bech32x_decode]. *)
Lemma bech32x_decode_joined (hrp : pystr) (data : list Z) :
  hrp <> [] ->
  Forall (fun x => 33 <= ord x <= 126) hrp ->
  lower hrp = hrp ->
  Forall (fun d => 0 <= d < 32) data ->
  len hrp + 1 + len data + 27 <= 1023 ->
  bech32x_decode
    (hrp ++ str "1" ++
     map symbol_char
       (data ++ mask_digits 27
          (Z.lxor (bech32x_polymod (bech32x_hrp_expand hrp ++ data ++ repeat 0 27)) 1)))
  = Some (hrp, data).
Proof.
  intros Hne Hrange Hlow Hdata Hlen.
  set (checksum := mask_digits 27 _).
  assert (Hcs : Forall (fun d => 0 <= d < 32) checksum) by apply mask_digits_symbols.
  assert (Hcl : length checksum = 27%nat) by apply mask_digits_length.
  assert (Hall : Forall (fun d => 0 <= d < 32) (data ++ checksum))
    by (apply Forall_app; split; assumption).
  assert (Hl : len (data ++ checksum) = len data + 27).
  { rewrite len_app. unfold len at 2. rewrite Hcl. lia. }
  rewrite bech32x_decode_structure, structure_joined; try assumption;
    [| pose proof (len_nonneg data); lia | lia].
  cbv zeta. rewrite find_symbol_chars by assumption.
  unfold bech32x_verify_checksum. rewrite app_assoc.
  unfold checksum at 1. rewrite app_assoc.
  rewrite polymod_with_checksum.
  - cbn [Z.eqb Pos.eqb]. f_equal. f_equal.
    change (-27) with (Z.opp 27).
    rewrite py_slice_to_neg by lia. rewrite length_app, Hcl.
    replace (length data + 27 - Z.to_nat 27)%nat with (length data + 0)%nat by lia.
    rewrite firstn_app_2. cbn [firstn]. apply app_nil_r.
  - apply Forall_app. split.
    + apply hrp_expand_below. eapply Forall_impl; [|exact Hrange].
      cbv beta. intros x Hx. lia.
    + now apply symbols_below.
Qed.

(** X13: the top-level round trip.  For a prefix of at least one printable
    character without upper-case letters and a list of bytes that fit the
    length limit, [encode] returns a string, and [decode] with the same
    prefix returns the bytes. *)
Theorem decode_encode (hrp : pystr) (data : list Z) :
  hrp <> [] ->
  Forall (fun x => 33 <= ord x <= 126) hrp ->
  lower hrp = hrp ->
  Forall (fun v => 0 <= v <= 255) data ->
  len hrp + 1 + (8 * len data + 4) / 5 + 27 <= 1023 ->
  exists addr,
    encode hrp data = Return (Some addr)
    /\ decode hrp addr = Return (DecodeValue (PList data)).
Proof.
  intros Hne Hrange Hlow Hdata Hlen.
  assert (Hd : Forall (fun v => 0 <= v < 2 ^ 8) data).
  { eapply Forall_impl; [|exact Hdata]. cbv beta. change (2 ^ 8) with 256. lia. }
  destruct (convertbits_pad 8 5 data ltac:(lia) ltac:(lia) Hd)
    as [syms [pad [E [Hs [Hp [Hl Hv]]]]]].
  assert (Hls : len syms = (8 * len data + 4) / 5)
    by (apply Z.div_unique with (4 - pad); lia).
  pose proof (convertbits_unpad data syms pad Hd Hs Hp Hl Hv) as Eback.
  assert (Hdec : decode hrp
                   (hrp ++ str "1" ++
                    map symbol_char
                      (syms ++ mask_digits 27
                         (Z.lxor (bech32x_polymod
                                    (bech32x_hrp_expand hrp ++ syms ++ repeat 0 27)) 1)))
                 = Return (DecodeValue (PList data))).
  { unfold decode. rewrite bech32x_decode_joined by (assumption || lia).
    rewrite pystr_eqb_refl. cbn [negb]. rewrite Eback. reflexivity. }
  eexists. split; [|exact Hdec].
  unfold encode. rewrite E. cbn [bind]. rewrite encode_list by assumption.
  cbn [bind]. rewrite Hdec. reflexivity.
Qed.

Lemma decode_encode_witness :
  exists addr,
    encode (str "tx") [255; 254; 253; 252; 251; 250; 249; 248; 247] = Return (Some addr)
    /\ decode (str "tx") addr
       = Return (DecodeValue (PList [255; 254; 253; 252; 251; 250; 249; 248; 247])).
Proof.
  apply (decode_encode (str "tx") [255; 254; 253; 252; 251; 250; 249; 248; 247]).
  - discriminate.
  - repeat constructor; vm_compute; discriminate.
  - reflexivity.
  - repeat constructor; vm_compute; discriminate.
  - vm_compute. discriminate.
Defined.

Lemma len_joined (hrp chars : pystr) : len (hrp ++ str "1" ++ chars) = len hrp + 1 + len chars.
Proof. rewrite !len_app. change (len (str "1")) with 1. lia. Qed.

(** X14: the self-check of [encode].  For bytes, [encode] returns [None]
    whenever the prefix is empty, has an upper-case letter or a character
    outside [33,126], or the string would be longer than 1023
    characters. *)
Theorem encode_refuses (hrp : pystr) (data : list Z) :
  Forall (fun v => 0 <= v <= 255) data ->
  hrp = []
  \/ lower hrp <> hrp
  \/ Exists (fun x => ord x < 33 \/ 126 < ord x) hrp
  \/ 1023 < len hrp + 1 + (8 * len data + 4) / 5 + 27 ->
  encode hrp data = Return None.
Proof.
  intros Hdata Hbad.
  assert (Hd : Forall (fun v => 0 <= v < 2 ^ 8) data).
  { eapply Forall_impl; [|exact Hdata]. cbv beta. change (2 ^ 8) with 256. lia. }
  destruct (convertbits_pad 8 5 data ltac:(lia) ltac:(lia) Hd)
    as [syms [pad [E [Hs [Hp [Hl _]]]]]].
  assert (Hls : len syms = (8 * len data + 4) / 5)
    by (apply Z.div_unique with (4 - pad); lia).
  unfold encode. rewrite E. cbn [bind]. rewrite encode_list by assumption.
  cbn [bind]. set (chars := map symbol_char _).
  assert (Hlc : len chars = len syms + 27).
  { unfold chars. rewrite len_symbol_chars, len_app. unfold len at 2.
    rewrite mask_digits_length. lia. }
  assert (Hsep : py_in 49%N chars = false).
  { apply py_in_symbol_chars. apply Forall_app.
    split; [assumption | apply mask_digits_symbols]. }
  assert (Hdec : decode hrp (hrp ++ str "1" ++ chars) = Return DecodeNonePair);
    [|now rewrite Hdec].
  unfold decode. rewrite bech32x_decode_structure.
  destruct (structure (hrp ++ str "1" ++ chars)) as [[h cs]|] eqn:Hst; [|reflexivity].
  cbv zeta. destruct (bech32x_verify_checksum _ _); [|reflexivity].
  replace (pystr_eqb h hrp) with false; [reflexivity|].
  symmetry. apply not_true_is_false. intros F. apply pystr_eqb_eq in F. subst h.
  destruct (structure_prefix _ _ _ Hst) as [Hr Hlow].
  destruct (structure_spec _ _ _ Hst) as [_ [_ [H1 _]]].
  assert (Hnone : structure (hrp ++ str "1" ++ chars) = None); [|congruence].
  destruct Hbad as [-> |[Hne|[Hex|Hlong]]].
  - change (len (@nil N)) with 0 in H1. lia.
  - contradiction.
  - exfalso. apply Exists_exists in Hex. destruct Hex as [x [Hx Hb]].
    rewrite Forall_forall in Hr. specialize (Hr x Hx). lia.
  - apply structure_malformed. right. left. rewrite len_joined. lia.
Qed.

Lemma encode_refuses_witness :
  encode (str "TX") [255; 254; 253] = Return None.
Proof.
  apply (encode_refuses (str "TX") [255; 254; 253]).
  - repeat constructor; vm_compute; discriminate.
  - right. left. discriminate.
Defined.

(** ** What the correcting decoder returns *)

Lemma py_setitem_raises {A : Type} (l : list A) (i : Z) (v : A) (e : pyexn) :
  py_setitem l i v = Raise e -> e = IndexError.
Proof. unfold py_setitem. destruct (_ && _); congruence. Qed.

Lemma py_setitem_terminates {A : Type} (l : list A) (i : Z) (v : A) :
  py_setitem l i v <> Diverges.
Proof. unfold py_setitem. destruct (_ && _); discriminate. Qed.

Lemma apply_corrections_outcome (ret : list (Z * Z)) (values : list Z) :
  (exists values', apply_corrections values ret = Return values')
  \/ apply_corrections values ret = Raise IndexError.
Proof.
  revert values. induction ret as [|[p e] ret IH]; intros values; [left; now eexists|].
  cbn [apply_corrections].
  destruct (py_getitem values (- (1 + p))) as [x|ex|] eqn:Hx; cbn [bind].
  - destruct (py_setitem values (- (1 + p)) (Z.lxor x e)) as [v1|es|] eqn:Hs; cbn [bind].
    + apply IH.
    + right. apply py_setitem_raises in Hs. now subst.
    + now apply py_setitem_terminates in Hs.
  - right. apply py_getitem_raises in Hx. now subst.
  - now apply py_getitem_terminates in Hx.
Qed.

Section SearchOutcome.

Variables (hrpgot : pystr) (hrp_ext values syn : list Z) (siz : Z).

(** The search ends in the tuple of [None]s, in a result, or in an
    [IndexError], as soon as the count 0 is among those it tries. *)
Lemma correct_search_outcome (counts : list Z) :
  In 0 counts ->
  correct_search hrpgot hrp_ext values syn siz counts = Return CorrectNoneTuple
  \/ (exists hrp data s positions,
        correct_search hrpgot hrp_ext values syn siz counts
        = Return (Corrected hrp data s positions))
  \/ correct_search hrpgot hrp_ext values syn siz counts = Raise IndexError.
Proof.
  induction counts as [|t counts IH]; intros Hin; [destruct Hin|].
  cbn [correct_search].
  destruct (bech32x_solver syn siz t) as [ret|] eqn:Hsol.
  - destruct (len ret =? t); [|now left].
    destruct (apply_corrections_outcome ret values) as [[values' ->]| ->]; cbn [bind];
      [|now right; right].
    destruct (mapM_getitem_outcome CHARSET (py_slice_from values' (len hrp_ext)))
      as [[chars ->]| ->]; cbn [bind]; [right; left; eauto 6 | now right; right].
  - destruct Hin as [->|Hin]; [|now apply IH].
    rewrite bech32x_solver_0 in Hsol. discriminate.
Qed.

End SearchOutcome.

(** X15: [base32x_correct] never falls off its loop (it never returns a bare
    [None]), never raises [TypeError] and always terminates: it returns the
    tuple of four [None]s or a tuple of results, or raises [IndexError]. *)
Theorem base32x_correct_outcomes (expected_hrp bech : pystr) :
  base32x_correct expected_hrp bech = Return CorrectNoneTuple
  \/ (exists hrp data s positions,
        base32x_correct expected_hrp bech = Return (Corrected hrp data s positions))
  \/ base32x_correct expected_hrp bech = Raise IndexError.
Proof.
  rewrite base32x_correct_structure.
  destruct (structure bech) as [[hrpgot chars]|]; [|now left].
  destruct (negb _ && negb _); [now left|]. cbv zeta.
  apply correct_search_outcome. repeat (try (left; reflexivity); right).
Qed.

Lemma apply_corrections_spec (ret : list (Z * Z)) (values values' : list Z) :
  Forall (fun pe => 0 <= fst pe) ret ->
  apply_corrections values ret = Return values' ->
  length values' = length values
  /\ forall j, (forall pe, In pe ret -> Z.of_nat j <> len values - 1 - fst pe) ->
               nth_error values' j = nth_error values j.
Proof.
  revert values. induction ret as [|[p e] ret IH]; intros values Hp H.
  - cbn in H. injection H as <-. split; reflexivity.
  - pose proof (Forall_inv Hp) as Hp0. pose proof (Forall_inv_tail Hp) as Hp'.
    cbn [fst] in Hp0. cbn [apply_corrections] in H.
    remember (- (1 + p)) as i eqn:Hi.
    destruct (py_getitem values i) as [x| |]; try discriminate.
    cbn [bind] in H.
    destruct (py_setitem values i (Z.lxor x e)) as [v1| |] eqn:Hs;
      try discriminate.
    cbn [bind] in H. destruct (IH v1 Hp' H) as [Hl Hn].
    unfold py_setitem in Hs. replace (i <? 0) with true in Hs by lia.
    destruct ((0 <=? i + len values) && (i + len values <? len values))
      eqn:R; [|discriminate].
    injection Hs as <-.
    rewrite list_update_length in Hl. split; [assumption|].
    intros j Hj. rewrite Hn.
    + rewrite nth_error_list_update.
      replace (Nat.eqb j (Z.to_nat (i + len values))) with false; [reflexivity|].
      symmetry. apply Nat.eqb_neq. specialize (Hj (p, e) (or_introl eq_refl)).
      cbn [fst] in Hj. lia.
    + intros pe Hin. unfold len. rewrite list_update_length.
      apply Hj. now right.
Qed.

Lemma roots_spec (lam : list Z) (siz : Z) :
  NoDup (roots lam siz) /\ Forall (fun p => 0 <= p < siz) (roots lam siz).
Proof.
  unfold roots. split.
  - apply NoDup_filter, py_range_NoDup.
  - apply Forall_forall. intros p Hp. apply filter_In in Hp.
    now apply In_py_range.
Qed.

Lemma bech32x_solver_positions (s : list Z) (siz err : Z) (ret : list (Z * Z)) :
  bech32x_solver s siz err = Some ret ->
  NoDup (map fst ret) /\ Forall (fun pe => 0 <= fst pe < siz) ret.
Proof.
  intros H. destruct (solve_matrix s err) as [m|] eqn:Hm.
  - rewrite (bech32x_solver_solved _ _ _ _ Hm) in H. injection H as <-.
    destruct (roots_spec (locator m err) siz) as [Hnd Hr].
    rewrite map_map. cbn [fst]. rewrite map_id. split; [assumption|].
    apply Forall_map. exact Hr.
  - apply (bech32x_solver_None s siz err) in Hm. congruence.
Qed.

Lemma correct_search_count (hrpgot : pystr) (hrp_ext values syn : list Z) (siz : Z)
  (counts : list Z) (hrp : pystr) (data : list Z) (s : pystr) (positions : list Z) :
  correct_search hrpgot hrp_ext values syn siz counts
  = Return (Corrected hrp data s positions) ->
  In (len positions) counts.
Proof.
  induction counts as [|i counts IH]; intros H; [discriminate|].
  cbn [correct_search] in H.
  destruct (bech32x_solver syn siz i) as [ret|]; [|right; now apply IH].
  destruct (len ret =? i) eqn:Hlen; [|discriminate].
  destruct (apply_corrections values ret) as [values'| |]; try discriminate.
  cbn [bind] in H. destruct (mapM _ _) as [chars| |]; try discriminate.
  cbn [bind] in H. injection H as _ _ _ <-.
  left. unfold len in *. rewrite length_map. lia.
Qed.

Lemma py_slice_from_neg (l : list Z) (h : nat) :
  (h <= length l)%nat ->
  py_slice l (Z.of_nat h) (-27) = py_slice_to (py_slice_from l (Z.of_nat h)) (-27).
Proof.
  intros Hh. rewrite py_slice_from_skipn by lia. rewrite Nat2Z.id.
  rewrite <- (firstn_skipn h l) at 1.
  replace (Z.of_nat h) with (len (firstn h l))
    by (unfold len; rewrite length_firstn; lia).
  change (-27) with (Z.opp 27). now rewrite py_slice_app_neg by lia.
Qed.

(** X16: the tuple of results of [base32x_correct].  The prefix is that of
    the input (and the expected one, unless the wildcard was given); the
    returned string is as long as the codeword of the input and agrees with
    it at every position that is not reported; the reported positions are
    at most seven, distinct, and indices into the returned string; the data
    are the symbols of the returned string without its last 27. *)
Theorem base32x_correct_result
  (expected_hrp bech hrp : pystr) (data : list Z) (s : pystr) (positions : list Z) :
  base32x_correct expected_hrp bech = Return (Corrected hrp data s positions) ->
  exists chars,
    structure bech = Some (hrp, chars)
    /\ (expected_hrp = str "*" \/ expected_hrp = hrp)
    /\ len s = len chars
    /\ len positions <= 7
    /\ NoDup positions
    /\ Forall (fun k => 0 <= k < len s) positions
    /\ (forall k c, nth_error chars k = Some c -> ~ In (Z.of_nat k) positions ->
                    nth_error s k = Some c)
    /\ data = py_slice_to (map (py_find CHARSET) s) (-27).
Proof.
  intros H. rewrite base32x_correct_structure in H.
  destruct (structure bech) as [[hrpgot chars]|] eqn:Hs; [|discriminate].
  destruct (negb (pystr_eqb expected_hrp (str "*")) && negb (pystr_eqb hrpgot expected_hrp))
    eqn:Hexp; [discriminate|].
  cbv zeta in H.
  pose proof (correct_search_count _ _ _ _ _ _ _ _ _ _ H) as Hcount.
  apply correct_search_success in H.
  destruct H as [ret [values' [-> [Hsol [Hv [Hc [Hdata Hpos]]]]]]].
  set (hrp_ext := bech32x_hrp_expand hrpgot) in *.
  set (values := hrp_ext ++ map (py_find CHARSET) chars) in *.
  destruct (structure_spec _ _ _ Hs) as [_ [Hin _]].
  destruct (bech32x_solver_positions _ _ _ _ Hsol) as [Hnd Hrange].
  pose proof (bech32x_solver_magnitudes _ _ _ _ Hsol) as Hmag.
  destruct (apply_corrections_spec ret values values'
              ltac:(eapply Forall_impl; [|exact Hrange]; cbv beta; lia) Hv)
    as [Hlen Hsame].
  destruct (mapM_getitem_CHARSET _ _ Hc) as [Hr32 Hmap].
  pose proof (apply_corrections_nonneg _ _ _ Hmag (values_nonneg hrpgot chars Hin) Hv)
    as Hnn.
  assert (Hvl : length values = (length hrp_ext + length chars)%nat).
  { unfold values. now rewrite length_app, length_map. }
  assert (Hcw : py_slice_from values' (len hrp_ext) = skipn (length hrp_ext) values').
  { rewrite py_slice_from_skipn by apply len_nonneg. unfold len. now rewrite Nat2Z.id. }
  rewrite Hcw in *.
  assert (Hsym : Forall (fun d => 0 <= d < 32) (skipn (length hrp_ext) values')).
  { rewrite <- (firstn_skipn (length hrp_ext) values') in Hnn.
    apply Forall_app in Hnn. destruct Hnn as [_ Hnn].
    rewrite Forall_forall in *. intros x Hx.
    specialize (Hr32 x Hx). specialize (Hnn x Hx). lia. }
  assert (Hls : len s = len chars).
  { rewrite Hmap. unfold len. rewrite length_map, length_skipn. lia. }
  exists chars. split; [reflexivity|]. split; [|split; [exact Hls|split; [|split; [|split; [|split]]]]].
  - apply andb_false_iff in Hexp. destruct Hexp as [E|E]; apply negb_false_iff in E;
      apply pystr_eqb_eq in E; [now left | right; now symmetry].
  - repeat (destruct Hcount as [<-|Hcount]; [lia|]). destruct Hcount.
  - rewrite Hpos. apply Injective_map_NoDup_in with (f := fun pe => len chars - 1 - fst pe).
    + intros [p1 e1] [p2 e2] H1 H2 E. cbn [fst] in E.
      assert (p1 = p2) by lia. subst p2. f_equal.
      clear - Hnd H1 H2. induction ret as [|[p e] ret IH]; [destruct H1|].
      cbn [map fst] in Hnd. inversion Hnd as [|? ? Hni Hnd']; subst.
      destruct H1 as [H1|H1], H2 as [H2|H2].
      * congruence.
      * injection H1 as -> ->. exfalso. apply Hni.
        change p1 with (fst (p1, e2)). now apply in_map.
      * injection H2 as -> ->. exfalso. apply Hni.
        change p1 with (fst (p1, e1)). now apply in_map.
      * now apply IH.
    + clear - Hnd. induction ret as [|[p e] ret IH]; [constructor|].
      cbn [map fst] in Hnd. inversion Hnd as [|? ? Hni Hnd']; subst.
      constructor; [|now apply IH].
      intros F. apply Hni. change p with (fst (p, e)). now apply in_map.
  - rewrite Hpos, Hls. apply Forall_map. eapply Forall_impl; [|exact Hrange].
    cbv beta. lia.
  - intros k c Hk Hnot.
    rewrite Hmap, nth_error_map, nth_error_skipn.
    rewrite Hsame.
    + unfold values. rewrite nth_error_app2 by lia.
      replace (length hrp_ext + k - length hrp_ext)%nat with k by lia.
      rewrite nth_error_map, Hk. cbn [option_map]. f_equal.
      apply nth_error_In in Hk. rewrite forallb_forall in Hin.
      now destruct (CHARSET_char c (Hin c Hk)) as [_ [_ [_ <-]]].
    + intros pe Hpe F. apply Hnot. rewrite Hpos.
      apply in_map_iff. exists pe. split; [|assumption].
      unfold len in *. lia.
  - rewrite Hdata, Hmap, find_symbol_chars by assumption.
    unfold len. rewrite py_slice_from_neg by lia.
    rewrite py_slice_from_skipn by lia. now rewrite Nat2Z.id.
Qed.

Lemma base32x_correct_result_witness :
  exists chars,
    structure (str "tx1xt6mevgd32vmrwptadmz38jpyqq") = Some (str "tx", chars)
    /\ (str "*" = str "*" \/ str "*" = str "tx")
    /\ len (str "xt6mevgd32vmrwptadmz38jpycx") = len chars
    /\ len [26; 25] <= 7
    /\ NoDup [26; 25]
    /\ Forall (fun k => 0 <= k < len (str "xt6mevgd32vmrwptadmz38jpycx")) [26; 25]
    /\ (forall k c, nth_error chars k = Some c -> ~ In (Z.of_nat k) [26; 25] ->
                    nth_error (str "xt6mevgd32vmrwptadmz38jpycx") k = Some c)
    /\ [] = py_slice_to (map (py_find CHARSET) (str "xt6mevgd32vmrwptadmz38jpycx")) (-27).
Proof.
  apply (base32x_correct_result (str "*") (str "tx1xt6mevgd32vmrwptadmz38jpyqq")
           (str "tx") [] (str "xt6mevgd32vmrwptadmz38jpycx") [26; 25]).
  vm_compute. reflexivity.
Defined.

(** ** Back from symbols to bytes *)

Lemma convertbits_regroup_back (syms data : list Z) :
  Forall (fun d => 0 <= d < 2 ^ 5) syms ->
  convertbits syms 5 8 false = Return (PList data) ->
  Forall (fun v => 0 <= v < 2 ^ 8) data
  /\ convertbits data 8 5 true = Return (PList syms).
Proof.
  intros Hsyms H. unfold convertbits in H.
  destruct (convert_loop_spec 5 8 ltac:(lia) ltac:(lia) syms 0 0 [] Hsyms ltac:(lia)
              ltac:(lia) ltac:(constructor))
    as [acc [bits [ret [E [Ha [Hb [Hr [Hv Hl]]]]]]]].
  rewrite E in H. cbn [bind] in H.
  change (base_value 8 []) with 0 in Hv. change (len (@nil Z)) with 0 in Hl.
  replace (0 * 2 ^ 0 + 0 mod 2 ^ 0) with 0 in Hv by reflexivity.
  rewrite Z.mul_0_l, Z.add_0_l in Hv.
  destruct ((bits >=? 5) || _) eqn:C; [discriminate|].
  injection H as <-. apply orb_false_iff in C. destruct C as [C1 C2].
  apply negb_false_iff, Z.eqb_eq in C2.
  rewrite shifted_low_bits in C2 by lia.
  assert (Hq : 0 < 2 ^ (8 - bits)) by (apply Z.pow_pos_nonneg; lia).
  assert (Hz : acc mod 2 ^ bits = 0) by nia.
  rewrite Hz, Z.add_0_r in Hv.
  split; [assumption|].
  destruct (convertbits_pad 8 5 ret ltac:(lia) ltac:(lia) Hr)
    as [out [pad [E2 [Ho [Hp [Hl2 Hv2]]]]]].
  rewrite E2. do 2 f_equal.
  assert (pad = bits) by lia. subst pad.
  apply (base_value_injective 5); try assumption; try lia.
  unfold len in *. lia.
Qed.

(** X17: symbols regrouped to bytes and back are the same symbols: when
    [convertbits(symbols, 5, 8, False)] returns a list, it is a list of
    bytes, and [convertbits] of it from 8 to 5 bits returns the symbols. *)
Theorem convertbits_round_trip_back (symbols data : list Z) :
  Forall (fun d => 0 <= d < 32) symbols ->
  convertbits symbols 5 8 false = Return (PList data) ->
  Forall (fun v => 0 <= v <= 255) data
  /\ convertbits data 8 5 true = Return (PList symbols).
Proof.
  intros Hs H.
  destruct (convertbits_regroup_back symbols data Hs H) as [Hd E].
  split; [|exact E].
  eapply Forall_impl; [|exact Hd]. cbv beta. change (2 ^ 8) with 256. lia.
Qed.

Lemma convertbits_round_trip_back_witness :
  Forall (fun v => 0 <= v <= 255) [255; 254; 253]
  /\ convertbits [255; 254; 253] 8 5 true = Return (PList [31; 31; 31; 15; 26]).
Proof.
  apply (convertbits_round_trip_back [31; 31; 31; 15; 26] [255; 254; 253]).
  - repeat constructor; vm_compute; discriminate.
  - vm_compute. reflexivity.
Defined.

Lemma structure_lower (bech : pystr) (r : pystr * pystr) :
  structure bech = Some r -> structure (lower bech) = Some r.
Proof.
  intros H. rewrite <- H. symmetry. apply structure_one_case.
  unfold structure in H.
  destruct (pystr_eqb (lower bech) bech) eqn:El; [left; now apply pystr_eqb_eq|].
  destruct (pystr_eqb (upper bech) bech) eqn:Eu; [right; now apply pystr_eqb_eq|].
  cbn [negb andb] in H. rewrite orb_true_r in H. discriminate.
Qed.

Lemma bech32x_decode_symbols (bech hrp : pystr) (data : list Z) :
  bech32x_decode bech = Some (hrp, data) -> Forall (fun d => 0 <= d < 2 ^ 5) data.
Proof.
  intros H. rewrite bech32x_decode_structure in H.
  destruct (structure bech) as [[h chars]|] eqn:Hs; [|discriminate].
  cbv zeta in H. destruct (bech32x_verify_checksum _ _); [|discriminate].
  injection H as _ <-.
  destruct (structure_spec _ _ _ Hs) as [_ [Hin _]].
  change (-27) with (Z.opp 27). rewrite py_slice_to_neg by lia.
  apply firstn_Forall. now apply find_symbols.
Qed.

(** X18: what [decode] accepts, [encode] spells.  When [decode] returns a
    list for a string with at least 27 characters after the separator, the
    list is a list of bytes and [encode] of the prefix and the list returns
    the string in lower case. *)
Theorem encode_decode (hrp addr : pystr) (data : list Z) :
  decode hrp addr = Return (DecodeValue (PList data)) ->
  len hrp + 28 <= len addr ->
  Forall (fun v => 0 <= v <= 255) data
  /\ encode hrp data = Return (Some (lower addr)).
Proof.
  intros H Hlen. unfold decode in H.
  destruct (bech32x_decode addr) as [[hrpgot syms]|] eqn:Hd; [|discriminate].
  destruct (pystr_eqb hrpgot hrp) eqn:Eh; cbn [negb] in H; [|discriminate].
  apply pystr_eqb_eq in Eh. subst hrpgot.
  destruct (convertbits syms 5 8 false) as [[|l]| |] eqn:Ec; try discriminate.
  cbn [bind] in H. injection H as ->.
  pose proof (bech32x_decode_symbols _ _ _ Hd) as Hsym.
  destruct (convertbits_regroup_back syms data Hsym Ec) as [Hbytes Eback].
  split.
  { eapply Forall_impl; [|exact Hbytes]. cbv beta. change (2 ^ 8) with 256. lia. }
  pose proof (bech32x_encode_decoded _ _ _ Hd Hlen) as Eenc.
  assert (Hdl : bech32x_decode (lower addr) = Some (hrp, syms)).
  { rewrite bech32x_decode_structure in Hd |- *.
    destruct (structure addr) as [r|] eqn:Hs; [|discriminate].
    now rewrite (structure_lower _ _ Hs). }
  unfold encode. rewrite Eback. cbn [bind]. rewrite Eenc. cbn [bind].
  unfold decode. rewrite Hdl, pystr_eqb_refl. cbn [negb]. rewrite Ec. reflexivity.
Qed.

Lemma encode_decode_witness :
  Forall (fun v => 0 <= v <= 255) [255; 254; 253]
  /\ encode (str "tx") [255; 254; 253] = Return (Some (lower (str "TX1LLL06YEK4M8GKR966YX54GMC3QN2AJ60"))).
Proof.
  apply (encode_decode (str "tx") (str "TX1LLL06YEK4M8GKR966YX54GMC3QN2AJ60") [255; 254; 253]).
  - vm_compute. reflexivity.
  - vm_compute. discriminate.
Defined.

(** ** The arithmetic of the field: [EXP], [LOG] and [shift] *)

(** The two tables are inverse to each other. *)
Lemma EXP_LOG (a : Z) :
  1 <= a <= 1023 ->
  0 <= py_index 0 LOG a < 1023 /\ py_index 0 EXP (py_index 0 LOG a) = a.
Proof.
  intros Ha.
  assert (C : forallb (fun a => (a =? 0)
                                || ((0 <=? py_index 0 LOG a) && (py_index 0 LOG a <? 1023)
                                    && (py_index 0 EXP (py_index 0 LOG a) =? a)))
                (py_range 1024) = true) by (vm_compute; reflexivity).
  rewrite forallb_forall in C.
  specialize (C a (proj2 (In_py_range 1024 a) ltac:(lia))).
  replace (a =? 0) with false in C by lia. cbn [orb] in C.
  apply andb_prop in C. destruct C as [C C3]. apply andb_prop in C. lia.
Qed.

Lemma LOG_EXP (i : Z) :
  0 <= i < 1023 -> py_index 0 LOG (py_index 0 EXP i) = i.
Proof.
  intros Hi.
  assert (C : forallb (fun i => py_index 0 LOG (py_index 0 EXP i) =? i) (py_range 1023) = true)
    by (vm_compute; reflexivity).
  rewrite forallb_forall in C.
  specialize (C i (proj2 (In_py_range 1023 i) Hi)). lia.
Qed.

Lemma EXP_nonzero (i : Z) : 0 <= i < 1023 -> 1 <= py_index 0 EXP i <= 1023.
Proof.
  intros Hi.
  assert (C : forallb (fun i => (1 <=? py_index 0 EXP i) && (py_index 0 EXP i <=? 1023))
                (py_range 1023) = true)
    by (vm_compute; reflexivity).
  rewrite forallb_forall in C.
  specialize (C i (proj2 (In_py_range 1023 i) Hi)). lia.
Qed.

Lemma shift_nonzero (a e : Z) :
  1 <= a <= 1023 ->
  shift a e = py_index 0 EXP ((py_index 0 LOG a + e) mod 1023)
  /\ 1 <= shift a e <= 1023.
Proof.
  intros Ha. unfold shift. replace (a =? 0) with false by lia.
  split; [reflexivity|]. apply EXP_nonzero. apply Z.mod_pos_bound. lia.
Qed.

Lemma shift_0_l (e : Z) : shift 0 e = 0.
Proof. reflexivity. Qed.

Lemma LOG_shift (a e : Z) :
  1 <= a <= 1023 ->
  py_index 0 LOG (shift a e) = (py_index 0 LOG a + e) mod 1023.
Proof.
  intros Ha. destruct (shift_nonzero a e Ha) as [-> _].
  apply LOG_EXP. apply Z.mod_pos_bound. lia.
Qed.

Lemma shift_shift (a x y : Z) :
  0 <= a <= 1023 -> shift (shift a x) y = shift a (x + y).
Proof.
  intros Ha. destruct (Z.eq_dec a 0) as [->|Hn]; [reflexivity|].
  destruct (shift_nonzero a x ltac:(lia)) as [_ Hr].
  destruct (shift_nonzero (shift a x) y Hr) as [-> _].
  destruct (shift_nonzero a (x + y) ltac:(lia)) as [-> _].
  rewrite LOG_shift by lia. f_equal.
  rewrite Z.add_mod_idemp_l by lia. f_equal. lia.
Qed.

Lemma shift_0_r (a : Z) : 0 <= a <= 1023 -> shift a 0 = a.
Proof.
  intros Ha. destruct (Z.eq_dec a 0) as [->|Hn]; [reflexivity|].
  destruct (shift_nonzero a 0 ltac:(lia)) as [-> _].
  destruct (EXP_LOG a ltac:(lia)) as [Hl He].
  rewrite Z.add_0_r, Z.mod_small by lia. exact He.
Qed.

Lemma shift_mod (a e : Z) : shift a (e mod 1023) = shift a e.
Proof.
  unfold shift. destruct (a =? 0); [reflexivity|].
  now rewrite Z.add_mod_idemp_r by lia.
Qed.

(** X19: [shift(a, e)] multiplies the field element [a] by the [e]-th power
    of the generator: shifting by 0 changes nothing, shifting twice is
    shifting by the sum, the exponent counts modulo 1023, and only 0 is
    shifted to 0; the result is a field element again. *)
Theorem shift_exponents (a x y : Z) :
  0 <= a <= 1023 ->
  shift a 0 = a
  /\ shift (shift a x) y = shift a (x + y)
  /\ shift a (x + 1023) = shift a x
  /\ (shift a x = 0 <-> a = 0)
  /\ 0 <= shift a x <= 1023.
Proof.
  intros Ha. split; [now apply shift_0_r|]. split; [now apply shift_shift|].
  split; [|split].
  - rewrite <- (shift_mod a (x + 1023)), <- (shift_mod a x). f_equal.
    replace (x + 1023) with (x + 1 * 1023) by lia. apply Z.mod_add. lia.
  - split.
    + intros H. destruct (Z.eq_dec a 0) as [|Hn]; [assumption|].
      destruct (shift_nonzero a x ltac:(lia)) as [_ Hr]. lia.
    + intros ->. reflexivity.
  - apply shift_range.
Qed.

Lemma shift_exponents_witness :
  shift 69 0 = 69
  /\ shift (shift 69 5) (-7) = shift 69 (5 + -7)
  /\ shift 69 (5 + 1023) = shift 69 5
  /\ (shift 69 5 = 0 <-> 69 = 0)
  /\ 0 <= shift 69 5 <= 1023.
Proof.
  apply (shift_exponents 69 5 (-7)). lia.
Defined.

(** *** [shift] is linear over XOR *)

Lemma shift_1_bits (a : Z) : 0 <= a <= 1023 -> shift a 1 = times_generator a.
Proof.
  intros Ha.
  assert (C : forallb (fun a => shift a 1 =? times_generator a) (py_range 1024) = true)
    by (vm_compute; reflexivity).
  rewrite forallb_forall in C.
  specialize (C a (proj2 (In_py_range 1024 a) ltac:(lia))). lia.
Qed.

Lemma fold_lxor_pointwise (f g : Z -> Z) (l : list Z) (x y : Z) :
  fold_left (fun acc i => Z.lxor acc (Z.lxor (f i) (g i))) l (Z.lxor x y)
  = Z.lxor (fold_left (fun acc i => Z.lxor acc (f i)) l x)
      (fold_left (fun acc i => Z.lxor acc (g i)) l y).
Proof.
  revert x y. induction l as [|i l IH]; intros x y; [reflexivity|].
  cbn [fold_left]. rewrite <- IH. f_equal. lxor_ring.
Qed.

Lemma fold_left_pointwise {A B : Type} (f g : A -> B -> A) (l : list B) (x : A) :
  (forall acc i, f acc i = g acc i) -> fold_left f l x = fold_left g l x.
Proof.
  intros H. revert x. induction l as [|i l IH]; intros x; [reflexivity|].
  cbn [fold_left]. now rewrite H, IH.
Qed.

Lemma times_generator_lxor (a b : Z) :
  times_generator (Z.lxor a b) = Z.lxor (times_generator a) (times_generator b).
Proof.
  unfold times_generator.
  rewrite <- fold_lxor_pointwise. change (Z.lxor 0 0) with 0.
  apply fold_left_pointwise. intros acc i. f_equal.
  rewrite Z.lxor_spec.
  destruct (Z.testbit a i), (Z.testbit b i); cbn [xorb];
    rewrite ?Z.lxor_nilpotent, ?Z.lxor_0_r, ?Z.lxor_0_l; reflexivity.
Qed.

Lemma lxor_field (a b : Z) : 0 <= a <= 1023 -> 0 <= b <= 1023 -> 0 <= Z.lxor a b <= 1023.
Proof.
  intros Ha Hb.
  assert (H : 0 <= Z.lxor a b < 2 ^ 10); [|lia].
  apply lxor_below; lia.
Qed.

Lemma shift_lxor_nat (n : nat) (a b : Z) :
  0 <= a <= 1023 -> 0 <= b <= 1023 ->
  shift (Z.lxor a b) (Z.of_nat n) = Z.lxor (shift a (Z.of_nat n)) (shift b (Z.of_nat n)).
Proof.
  intros Ha Hb. induction n as [|n IH].
  - cbn [Z.of_nat]. rewrite !shift_0_r; try assumption; [reflexivity|].
    now apply lxor_field.
  - rewrite Nat2Z.inj_succ. unfold Z.succ.
    rewrite <- !shift_shift by (assumption || now apply lxor_field).
    rewrite IH, !shift_1_bits; try apply shift_range.
    + apply times_generator_lxor.
    + apply lxor_field; apply shift_range.
Qed.

Lemma shift_lxor (a b e : Z) :
  0 <= a <= 1023 -> 0 <= b <= 1023 ->
  shift (Z.lxor a b) e = Z.lxor (shift a e) (shift b e).
Proof.
  intros Ha Hb.
  rewrite <- (shift_mod (Z.lxor a b)), <- (shift_mod a), <- (shift_mod b).
  pose proof (Z.mod_pos_bound e 1023 ltac:(lia)) as Hm.
  rewrite <- (Z2Nat.id (e mod 1023)) by lia.
  now apply shift_lxor_nat.
Qed.

(** X20: [shift] distributes over XOR, the addition of the field: for field
    elements [a] and [b], shifting their sum is summing their shifts. *)
Theorem shift_distributes (a b e : Z) :
  0 <= a <= 1023 -> 0 <= b <= 1023 ->
  shift (Z.lxor a b) e = Z.lxor (shift a e) (shift b e).
Proof. exact (shift_lxor a b e). Qed.

Lemma shift_distributes_witness :
  shift (Z.lxor 69 229) (-3) = Z.lxor (shift 69 (-3)) (shift 229 (-3)).
Proof.
  apply (shift_distributes 69 229 (-3)); lia.
Defined.

(** ** The syndromes *)

(** One pass of the loop over [i] updates each of the 14 entries by
    itself. *)
Lemma syndrome_pass (g : Z -> Z -> Z) (acc : Z -> Z) :
  fold_left (fun syn i => py_set syn i (g i (py_index 0 syn i))) (py_range 14)
    (map acc (py_range 14))
  = map (fun i => g i (acc i)) (py_range 14).
Proof. reflexivity. Qed.

Lemma syndrome_fold (residue : list Z) (acc : Z -> Z) :
  fold_left
    (fun syn v =>
       fold_left
         (fun syn i => py_set syn i (Z.lxor (shift (py_index 0 syn i) (20 + i)) v))
         (py_range 14) syn)
    residue (map acc (py_range 14))
  = map (fun i => fold_left (fun ret v => Z.lxor (shift ret (20 + i)) v) residue (acc i))
      (py_range 14).
Proof.
  revert acc. induction residue as [|v residue IH]; intros acc; [reflexivity|].
  cbn [fold_left].
  rewrite (syndrome_pass (fun i x => Z.lxor (shift x (20 + i)) v) acc).
  apply (IH (fun i => Z.lxor (shift (acc i) (20 + i)) v)).
Qed.

(** X21: the 14 syndromes are the values of the residue, read as a
    polynomial with its first digit as leading coefficient, at the powers
    20 to 33 of the generator: the two loops of [base32x_correct] compute
    what [polyeval] computes. *)
Theorem syndrome_polyeval (residue : list Z) :
  syndrome residue = map (fun i => polyeval (rev residue) (20 + i)) (py_range 14).
Proof.
  unfold syndrome. change (repeat 0 14) with (map (fun _ : Z => 0) (py_range 14)).
  rewrite syndrome_fold. apply map_ext. intros i.
  unfold polyeval. now rewrite rev_involutive.
Qed.

(** ** What the solver returns *)

Lemma seq_sorted (start n : nat) : StronglySorted Z.lt (map Z.of_nat (seq start n)).
Proof.
  revert start. induction n as [|n IH]; intros start; cbn [seq map]; constructor.
  - apply IH.
  - apply Forall_forall. intros x Hx. apply in_map_iff in Hx.
    destruct Hx as [k [<- Hk]]. apply in_seq in Hk. lia.
Qed.

Lemma filter_sorted (f : Z -> bool) (l : list Z) :
  StronglySorted Z.lt l -> StronglySorted Z.lt (filter f l).
Proof.
  induction 1 as [|x l Hs IH Hx]; cbn [filter]; [constructor|].
  destruct (f x); [|assumption]. constructor; [assumption|].
  apply Forall_forall. intros y Hy. apply filter_In in Hy.
  rewrite Forall_forall in Hx. now apply Hx.
Qed.

(** X22: the list [bech32x_solver] returns names positions in increasing
    order, each below [siz], each with a field element as magnitude. *)
Theorem bech32x_solver_result (s : list Z) (siz err : Z) (ret : list (Z * Z)) :
  bech32x_solver s siz err = Some ret ->
  StronglySorted Z.lt (map fst ret)
  /\ Forall (fun pe => 0 <= fst pe < siz /\ 0 <= snd pe <= 1023) ret.
Proof.
  intros H. destruct (solve_matrix s err) as [m|] eqn:Hm.
  - rewrite (bech32x_solver_solved _ _ _ _ Hm) in H. injection H as <-. split.
    + rewrite map_map. cbn [fst]. rewrite map_id. unfold roots.
      apply filter_sorted, seq_sorted.
    + apply Forall_map. apply Forall_forall. intros p Hp. cbn [fst snd].
      split; [|apply shift_range].
      unfold roots in Hp. apply filter_In in Hp. now apply In_py_range.
  - apply (bech32x_solver_None s siz err) in Hm. congruence.
Qed.

Lemma bech32x_solver_result_witness :
  StronglySorted Z.lt (map fst [(3, 98)])
  /\ Forall (fun pe => 0 <= fst pe < 10 /\ 0 <= snd pe <= 1023) [(3, 98)].
Proof.
  apply (bech32x_solver_result
           [1; 290; 166; 737; 203; 67; 598; 909; 865; 676; 241; 26; 657; 951] 10 1).
  vm_compute. reflexivity.
Defined.

(** ** Polynomials over the field: [polyeval] of [polymul] *)

Lemma gf_mul_range (x y : Z) : 0 <= gf_mul x y <= 1023.
Proof. unfold gf_mul. destruct (x =? 0); [lia | apply shift_range]. Qed.

Lemma gf_mul_0_r (x : Z) : gf_mul x 0 = 0.
Proof. unfold gf_mul. now destruct (x =? 0). Qed.

Lemma gf_mul_comm (x y : Z) :
  0 <= x <= 1023 -> 0 <= y <= 1023 -> gf_mul x y = gf_mul y x.
Proof.
  intros Hx Hy. unfold gf_mul.
  destruct (Z.eqb_spec x 0) as [->|Nx], (Z.eqb_spec y 0) as [->|Ny]; try reflexivity.
  destruct (shift_nonzero y (py_index 0 LOG x) ltac:(lia)) as [-> _].
  destruct (shift_nonzero x (py_index 0 LOG y) ltac:(lia)) as [-> _].
  f_equal. f_equal. lia.
Qed.

Lemma gf_mul_lxor_r (x y z : Z) :
  0 <= y <= 1023 -> 0 <= z <= 1023 ->
  gf_mul x (Z.lxor y z) = Z.lxor (gf_mul x y) (gf_mul x z).
Proof.
  intros Hy Hz. unfold gf_mul. destruct (x =? 0); [reflexivity|].
  now apply shift_lxor.
Qed.

Lemma gf_mul_lxor_l (x y z : Z) :
  0 <= x <= 1023 -> 0 <= y <= 1023 -> 0 <= z <= 1023 ->
  gf_mul (Z.lxor x y) z = Z.lxor (gf_mul x z) (gf_mul y z).
Proof.
  intros Hx Hy Hz.
  rewrite (gf_mul_comm (Z.lxor x y) z), (gf_mul_comm x z), (gf_mul_comm y z);
    try assumption; [|now apply lxor_field].
  now apply gf_mul_lxor_r.
Qed.

Lemma gf_mul_shift_r (x y l : Z) :
  0 <= y <= 1023 -> gf_mul x (shift y l) = shift (gf_mul x y) l.
Proof.
  intros Hy. unfold gf_mul. destruct (x =? 0); [reflexivity|].
  rewrite !shift_shift by assumption. f_equal. lia.
Qed.

Lemma gf_mul_shift_l (x y l : Z) :
  0 <= x <= 1023 -> 0 <= y <= 1023 -> gf_mul (shift x l) y = shift (gf_mul x y) l.
Proof.
  intros Hx Hy.
  rewrite (gf_mul_comm (shift x l) y), (gf_mul_comm x y);
    try assumption; [|apply shift_range].
  now apply gf_mul_shift_r.
Qed.

Lemma polyeval_cons (c : Z) (p : list Z) (l : Z) :
  polyeval (c :: p) l = Z.lxor (shift (polyeval p l) l) c.
Proof. unfold polyeval. cbn [rev]. now rewrite fold_left_app. Qed.

Lemma polyeval_range (p : list Z) (l : Z) :
  Forall (fun x => 0 <= x <= 1023) p -> 0 <= polyeval p l <= 1023.
Proof.
  induction 1 as [|c p Hc Hp IH]; [cbn; lia|].
  rewrite polyeval_cons. apply lxor_field; [apply shift_range | assumption].
Qed.

Lemma polyeval_zeros (n : nat) (l : Z) : polyeval (repeat 0 n) l = 0.
Proof.
  induction n as [|n IH]; [reflexivity|].
  cbn [repeat]. now rewrite polyeval_cons, IH.
Qed.

Lemma padd_length (p q : list Z) : length (padd p q) = Nat.max (length p) (length q).
Proof.
  revert q. induction p as [|x p IH]; intros [|y q]; cbn [padd length]; try reflexivity.
  - now rewrite IH.
Qed.

Lemma padd_nth (p q : list Z) (n : nat) :
  nth n (padd p q) 0 = Z.lxor (nth n p 0) (nth n q 0).
Proof.
  revert q n. induction p as [|x p IH]; intros [|y q] n; cbn [padd].
  - now destruct n.
  - destruct n; reflexivity.
  - destruct n; cbn [nth]; now rewrite Z.lxor_0_r.
  - destruct n; cbn [nth]; [reflexivity | apply IH].
Qed.

Lemma padd_field (p q : list Z) :
  Forall (fun x => 0 <= x <= 1023) p -> Forall (fun x => 0 <= x <= 1023) q ->
  Forall (fun x => 0 <= x <= 1023) (padd p q).
Proof.
  intros Hp. revert q. induction Hp as [|x p Hx Hp IH]; intros q Hq; [assumption|].
  destruct Hq as [|y q Hy Hq]; cbn [padd]; constructor; auto.
  now apply lxor_field.
Qed.

Lemma polyeval_padd (p q : list Z) (l : Z) :
  Forall (fun x => 0 <= x <= 1023) p -> Forall (fun x => 0 <= x <= 1023) q ->
  polyeval (padd p q) l = Z.lxor (polyeval p l) (polyeval q l).
Proof.
  intros Hp. revert q. induction Hp as [|x p Hx Hp IH]; intros q Hq.
  - cbn [padd]. change (polyeval [] l) with 0. now rewrite Z.lxor_0_l.
  - destruct Hq as [|y q Hy Hq]; cbn [padd].
    + change (polyeval [] l) with 0. now rewrite Z.lxor_0_r.
    + rewrite !polyeval_cons, IH by assumption.
      rewrite shift_lxor by (now apply polyeval_range). lxor_ring.
Qed.

Lemma polyeval_scale (c : Z) (q : list Z) (l : Z) :
  Forall (fun x => 0 <= x <= 1023) q ->
  polyeval (map (gf_mul c) q) l = gf_mul c (polyeval q l).
Proof.
  induction 1 as [|y q Hy Hq IH].
  - cbn [map]. change (polyeval [] l) with 0. now rewrite gf_mul_0_r.
  - cbn [map]. rewrite !polyeval_cons, IH.
    rewrite gf_mul_lxor_r; [|apply shift_range | assumption].
    now rewrite gf_mul_shift_r by (now apply polyeval_range).
Qed.

Lemma py_index_nth (l : list Z) (k : Z) :
  0 <= k -> py_index 0 l k = nth (Z.to_nat k) l 0.
Proof.
  intros Hk. unfold py_index, py_getitem. replace (k <? 0) with false by lia.
  destruct ((0 <=? k) && (k <? len l)) eqn:E.
  - destruct (nth_error l (Z.to_nat k)) as [x|] eqn:En.
    + symmetry. now apply nth_error_nth.
    + symmetry. apply nth_overflow. now apply nth_error_None.
  - symmetry. apply nth_overflow. unfold len in E. lia.
Qed.

Lemma py_range_cons (n : nat) :
  py_range (Z.of_nat (S n)) = 0 :: map (fun x => x + 1) (py_range (Z.of_nat n)).
Proof.
  unfold py_range. rewrite !Nat2Z.id. cbn [seq map]. f_equal.
  rewrite <- seq_shift, !map_map. apply map_ext. intros k. lia.
Qed.

Lemma fold_lxor_init (t : Z -> Z) (xs : list Z) (init : Z) :
  fold_left (fun acc x => Z.lxor acc (t x)) xs init
  = Z.lxor init (fold_left (fun acc x => Z.lxor acc (t x)) xs 0).
Proof.
  revert init. induction xs as [|x xs IH]; intros init; cbn [fold_left].
  - now rewrite Z.lxor_0_r.
  - rewrite IH, (IH (Z.lxor 0 (t x))), Z.lxor_0_l. lxor_ring.
Qed.

Lemma fold_lxor_map (t : Z -> Z) (g : Z -> Z) (xs : list Z) (init : Z) :
  fold_left (fun acc x => Z.lxor acc (t x)) (map g xs) init
  = fold_left (fun acc x => Z.lxor acc (t (g x))) xs init.
Proof.
  revert init. induction xs as [|x xs IH]; intros init; [reflexivity|].
  cbn [map fold_left]. apply IH.
Qed.

Lemma fold_lxor_in (t u : Z -> Z) (xs : list Z) (init : Z) :
  (forall x, In x xs -> t x = u x) ->
  fold_left (fun acc x => Z.lxor acc (t x)) xs init
  = fold_left (fun acc x => Z.lxor acc (u x)) xs init.
Proof.
  revert init. induction xs as [|x xs IH]; intros init H; [reflexivity|].
  cbn [fold_left]. rewrite (H x (or_introl eq_refl)). apply IH.
  intros y Hy. apply H. now right.
Qed.

Lemma fold_lxor_zero (xs : list Z) :
  fold_left (fun acc (_ : Z) => Z.lxor acc 0) xs 0 = 0.
Proof. induction xs as [|x xs IH]; [reflexivity | exact IH]. Qed.

Lemma py_index_tail (c : Z) (a : list Z) (x : Z) :
  0 <= x -> py_index 0 (c :: a) (x + 1) = py_index 0 a x.
Proof.
  intros Hx. rewrite !py_index_nth by lia.
  replace (Z.to_nat (x + 1)) with (S (Z.to_nat x)) by lia. reflexivity.
Qed.

(** The coefficients of a product whose first factor has one more
    coefficient in front. *)
Lemma product_coefficient_cons (c : Z) (a b : list Z) (n : nat) :
  product_coefficient (c :: a) b (Z.of_nat n)
  = Z.lxor (gf_mul c (nth n b 0))
      (match n with
       | O => 0
       | S n' => product_coefficient a b (Z.of_nat n')
       end).
Proof.
  unfold product_coefficient.
  change (len (c :: a)) with (Z.of_nat (S (length a))).
  rewrite py_range_cons. cbn [fold_left]. rewrite fold_lxor_init, fold_lxor_map.
  f_equal.
  - rewrite Z.lxor_0_l. change (py_index 0 (c :: a) 0) with c.
    rewrite Z.sub_0_r, py_index_nth, Nat2Z.id by lia.
    destruct ((0 <=? Z.of_nat n) && (Z.of_nat n <? 0 + len b)) eqn:E; [reflexivity|].
    rewrite nth_overflow by (unfold len in E; lia). now rewrite gf_mul_0_r.
  - destruct n as [|n'].
    + etransitivity; [|apply (fold_lxor_zero (py_range (Z.of_nat (length a))))].
      apply fold_lxor_in. intros x Hx. apply In_py_range in Hx.
      change (Z.of_nat 0) with 0.
      replace (x + 1 <=? 0) with false by lia. reflexivity.
    + apply fold_lxor_in. intros x Hx. apply In_py_range in Hx.
      rewrite py_index_tail by lia.
      replace (Z.of_nat (S n')) with (Z.of_nat n' + 1) by lia.
      generalize (Z.of_nat n') as k. intros k.
      replace (k + 1 - (x + 1)) with (k - x) by lia.
      replace (x + 1 <=? k + 1) with (x <=? k) by lia.
      replace (k + 1 <? x + 1 + len b) with (k <? x + len b) by lia.
      reflexivity.
Qed.

Lemma polymul_nth (a b : list Z) (n : nat) :
  nth n (polymul a b) 0 = product_coefficient a b (Z.of_nat n).
Proof.
  rewrite <- polymul_coefficient by lia.
  rewrite py_index_nth by lia. now rewrite Nat2Z.id.
Qed.

(** One coefficient more in front of the first factor: the second factor
    times that coefficient, plus the product so far moved up by one
    degree. *)
Lemma polymul_cons (c : Z) (a b : list Z) :
  b <> [] ->
  polymul (c :: a) b = padd (map (gf_mul c) b) (0 :: polymul a b).
Proof.
  intros Hb. apply (nth_ext _ _ 0 0).
  - rewrite padd_length, length_map. cbn [length]. rewrite !polymul_length.
    unfold len. cbn [length]. destruct b as [|y b]; [contradiction|].
    cbn [length]. lia.
  - intros n _. rewrite padd_nth, polymul_nth, product_coefficient_cons.
    f_equal.
    + rewrite <- (map_nth (gf_mul c)). now rewrite gf_mul_0_r.
    + destruct n as [|n']; [reflexivity|]. cbn [nth]. now rewrite polymul_nth.
Qed.

Lemma polymul_nil_l (b : list Z) : polymul [] b = repeat 0 (Z.to_nat (len b - 1)).
Proof. reflexivity. Qed.

Lemma polymul_nil_r (a : list Z) : polymul a [] = repeat 0 (Z.to_nat (len a - 1)).
Proof.
  apply (nth_ext _ _ 0 0).
  - rewrite polymul_length, repeat_length. change (len []) with 0. f_equal. lia.
  - intros n _. rewrite polymul_nth, nth_repeat.
    unfold product_coefficient. change (len []) with 0.
    etransitivity; [|apply (fold_lxor_zero (py_range (len a)))].
    apply fold_lxor_in. intros x Hx.
    destruct ((x <=? Z.of_nat n) && (Z.of_nat n <? x + 0)) eqn:E; [lia | reflexivity].
Qed.

Lemma polymul_field_eval (a b : list Z) (l : Z) :
  Forall (fun x => 0 <= x <= 1023) a ->
  Forall (fun x => 0 <= x <= 1023) b ->
  Forall (fun x => 0 <= x <= 1023) (polymul a b)
  /\ polyeval (polymul a b) l = gf_mul (polyeval a l) (polyeval b l).
Proof.
  intros Ha Hb. destruct b as [|y b'].
  { rewrite polymul_nil_r. split.
    - apply Forall_forall. intros x Hx. apply repeat_spec in Hx. lia.
    - rewrite polyeval_zeros. change (polyeval [] l) with 0. now rewrite gf_mul_0_r. }
  set (b := y :: b') in *.
  induction Ha as [|c a Hc Ha [IHf IHe]].
  - rewrite polymul_nil_l. split.
    + apply Forall_forall. intros x Hx. apply repeat_spec in Hx. lia.
    + now rewrite polyeval_zeros.
  - rewrite polymul_cons by discriminate.
    assert (Hs : Forall (fun x => 0 <= x <= 1023) (map (gf_mul c) b)).
    { apply Forall_map. apply Forall_forall. intros x _. apply gf_mul_range. }
    assert (Hz : Forall (fun x => 0 <= x <= 1023) (0 :: polymul a b))
      by (constructor; [lia | assumption]).
    split; [now apply padd_field|].
    rewrite polyeval_padd, polyeval_scale by assumption.
    rewrite !polyeval_cons, IHe, Z.lxor_0_r.
    pose proof (polyeval_range a l Ha) as Hpa.
    pose proof (polyeval_range b l Hb) as Hpb.
    rewrite gf_mul_lxor_l; try assumption; [|apply shift_range].
    rewrite gf_mul_shift_l by assumption. apply Z.lxor_comm.
Qed.

(** X23: [polymul] and [polyeval] agree: for polynomials with field
    elements as coefficients, the value of the product at a power of the
    generator is the product of the two values, and the coefficients of the
    product are field elements again. *)
Theorem polyeval_polymul (a b : list Z) (l : Z) :
  Forall (fun x => 0 <= x <= 1023) a ->
  Forall (fun x => 0 <= x <= 1023) b ->
  Forall (fun x => 0 <= x <= 1023) (polymul a b)
  /\ polyeval (polymul a b) l = gf_mul (polyeval a l) (polyeval b l).
Proof. exact (polymul_field_eval a b l). Qed.

Lemma polyeval_polymul_witness :
  Forall (fun x => 0 <= x <= 1023) (polymul [1; 290; 166] [737; 0; 203; 67])
  /\ polyeval (polymul [1; 290; 166] [737; 0; 203; 67]) (-5)
     = gf_mul (polyeval [1; 290; 166] (-5)) (polyeval [737; 0; 203; 67] (-5)).
Proof.
  apply (polyeval_polymul [1; 290; 166] [737; 0; 203; 67] (-5));
    repeat constructor; vm_compute; discriminate.
Defined.
